(** * Options analyzer: the adjustment-scenario engine of [backend/server.py]

    A shallow embedding of [analyze_adjustment_scenarios] (server.py, lines
    351-474) with its nested [calculate_payoff], and the properties of the
    payoff evaluator, the scenario transform, the extremum scan and the
    recommendation rules.

    Numbers.  The prices, strikes, premiums and payoffs of the program are
    Python floats; they are embedded as exact rationals ([Q]), the level at
    which the design document speaks of them ("real").  Rounding error of
    binary64 arithmetic is therefore outside the model.  The concrete requests
    of the counterexamples below use values that binary64 represents exactly
    or leave a wide margin around each comparison, so that Python takes the
    same branches on them.  Python integers
    ([quantity], the values of [range], the result of [int]) are [Z].

    Exceptions.  The calls that can raise in Python ([max] and [min] of an
    empty sequence, [/] by zero) return a [result]; the function threads it
    with [bind].

    The other endpoints of the file that compute on their inputs are
    embedded after it: the roll suggestions, the mock option chain, the
    watchlist and the strategies.  What their collaborators answer (the
    quote lookup, the database driver, the clock) is an argument of the
    model; the collections are lists threaded through the calls. *)

From Stdlib Require Import ZArith QArith Qround Qabs Qminmax.
From Stdlib Require Import String Ascii List Bool Lia DecimalString.
From Stdlib Require Import Setoid Morphisms Lqa Permutation Sorted.
Import ListNotations.

Local Open Scope Q_scope.

(* ------------------------------------------------------------------ *)
(** ** Exceptions *)

Inductive PyError : Type :=
| ValueError          (* max()/min() of an empty sequence *)
| ZeroDivisionError.  (* float division by zero *)

Inductive result (A : Type) : Type :=
| Ok (a : A)
| Raise (e : PyError).

Arguments Ok {A} a.
Arguments Raise {A} e.

Definition bind {A B : Type} (m : result A) (k : A -> result B) : result B :=
  match m with
  | Ok a => k a
  | Raise e => Raise e
  end.

Notation "x <- m ;; k" := (bind m (fun x => k))
  (at level 61, m at next level, right associativity).

(* ------------------------------------------------------------------ *)
(** ** The Python built-ins the function uses *)

Module Py.

(** [int(x)] on a float: truncation toward zero. *)
Definition int (x : Q) : Z := Z.quot (Qnum x) (Zpos (Qden x)).

(** [range(lo, hi)]. *)
Definition range (lo hi : Z) : list Z :=
  map (fun i => (lo + Z.of_nat i)%Z) (seq 0 (Z.to_nat (hi - lo))).

(** [max(iterable)]: the first maximal item; [ValueError] when empty.
    [Qmax a b] is [b] when [a < b] and [a] otherwise, which is the
    update [if b > best: best = b]. *)
Definition max (l : list Q) : result Q :=
  match l with
  | [] => Raise ValueError
  | x :: xs => Ok (fold_left Qmax xs x)
  end.

(** [min(iterable)]. *)
Definition min (l : list Q) : result Q :=
  match l with
  | [] => Raise ValueError
  | x :: xs => Ok (fold_left Qmin xs x)
  end.

(** [x / y]. *)
Definition div (x y : Q) : result Q :=
  if Qeq_bool y 0 then Raise ZeroDivisionError else Ok (x / y).

(** Rounding of a rational to the nearest integer, ties to even. *)
Definition round_half_even (x : Q) : Z :=
  let f := Qfloor x in
  match Qcompare (x - inject_Z f) (1 # 2) with
  | Lt => f
  | Gt => (f + 1)%Z
  | Eq => if Z.even f then f else (f + 1)%Z
  end.

(** [round(x, 2)]. *)
Definition round2 (x : Q) : Q := inject_Z (round_half_even (x * 100)) / 100.

(** [v or d] on an optional float: [None] and [0.0] are falsy. *)
Definition or_default (v : option Q) (d : Q) : Q :=
  match v with
  | Some x => if Qeq_bool x 0 then d else x
  | None => d
  end.

(** [str(n)] of an integer, as an f-string interpolates it. *)
Definition str (n : Z) : string := NilZero.string_of_int (Z.to_int n).

(** [f"{x:.1f}"]: one digit after the point, ties to even. *)
Definition fmt1 (x : Q) : string :=
  let n := Z.abs (round_half_even (x * 10)) in
  ((if Qlt_le_dec x 0 then "-" else EmptyString) ++
   str (n / 10) ++ "." ++ str (n mod 10))%string.

End Py.

(* ------------------------------------------------------------------ *)
(** ** Data model (the pydantic models and the response dictionaries) *)

Record OptionLeg : Type := {
  type : string;            (* call or put *)
  action : string;          (* buy or sell *)
  strike : Q;
  premium : Q;
  quantity : Z;
  expiration : option string;
  volatility : option Q
}.

Record AdjustmentScenario : Type := {
  ticker : string;
  current_price : Q;
  options : list OptionLeg;
  scenario_type : string;   (* price_up, price_down, volatility_increase, time_decay *)
  scenario_value : option Q
}.

(** One entry of the [recommendations] list. *)
Record Recommendation : Type := {
  rec_type : string;
  rec_urgency : string;
  rec_reason : string;
  rec_action : string
}.

(** The dictionary the endpoint returns. *)
Record ScenarioResult : Type := {
  r_current_price : Q;
  r_scenario_price : Q;
  r_current_pnl : Q;
  r_scenario_pnl : Q;
  r_pnl_change : Q;
  r_max_profit : Q;
  r_max_loss : Q;
  r_recommendations : list Recommendation
}.

(* ------------------------------------------------------------------ *)
(** ** Payoff evaluator: [calculate_payoff] *)

(** One iteration of the loop body: the new [total]. *)
Definition payoff_step (price : Q) (total : Q) (opt : OptionLeg) : Q :=
  let intrinsic :=
    if (type opt =? "call")%string
    then Qmax 0 (price - strike opt)
    else Qmax 0 (strike opt - price) in
  if (action opt =? "buy")%string
  then total + (intrinsic - premium opt) * inject_Z (quantity opt) * 100
  else total + (premium opt - intrinsic) * inject_Z (quantity opt) * 100.

Definition calculate_payoff (price : Q) (opts : list OptionLeg) : Q :=
  fold_left (payoff_step price) opts 0.

(** The term one iteration of the loop adds to [total]. *)
Definition leg_pnl (price : Q) (opt : OptionLeg) : Q :=
  let intrinsic :=
    if (type opt =? "call")%string
    then Qmax 0 (price - strike opt)
    else Qmax 0 (strike opt - price) in
  if (action opt =? "buy")%string
  then (intrinsic - premium opt) * inject_Z (quantity opt) * 100
  else (premium opt - intrinsic) * inject_Z (quantity opt) * 100.

Definition sumQ (l : list Q) : Q := fold_right Qplus 0 l.

(* ------------------------------------------------------------------ *)
(** ** Scenario transform (lines 375-379) *)

Definition scenario_price_of (scenario : AdjustmentScenario) : Q :=
  let current_price := current_price scenario in
  if (scenario_type scenario =? "price_up")%string
  then current_price * (1 + Py.or_default (scenario_value scenario) (1 # 10))
  else if (scenario_type scenario =? "price_down")%string
  then current_price * (1 - Py.or_default (scenario_value scenario) (1 # 10))
  else current_price.

(* ------------------------------------------------------------------ *)
(** ** Extremum scan (lines 384-385) *)

(** [range(int(current_price * 0.5), int(current_price * 1.5))]. *)
Definition scan_prices (current_price : Q) : list Z :=
  Py.range (Py.int (current_price * (1 # 2))) (Py.int (current_price * (3 # 2))).

(** The generator [calculate_payoff(p, options) for p in range(...)]. *)
Definition scan_payoffs (current_price : Q) (opts : list OptionLeg) : list Q :=
  map (fun p => calculate_payoff (inject_Z p) opts) (scan_prices current_price).

(* ------------------------------------------------------------------ *)
(** ** Recommendation rules (lines 388-463) *)

Definition close_rec (loss_percent : Q) : Recommendation :=
  {| rec_type := "close";
     rec_urgency := "high";
     rec_reason := "Position is at " ++ Py.fmt1 loss_percent ++
                   "% of max loss. Consider closing to limit further losses.";
     rec_action := "Close entire position" |}.

Definition roll_rec (loss_percent : Q) : Recommendation :=
  {| rec_type := "roll";
     rec_urgency := "medium";
     rec_reason := "Position is at " ++ Py.fmt1 loss_percent ++
                   "% of max loss. Rolling can reduce risk.";
     rec_action := "Roll to further expiration or different strikes" |}.

Definition roll_up_rec (current_price : Q) : Recommendation :=
  {| rec_type := "adjust";
     rec_urgency := "medium";
     rec_reason := "Price moved above spread. Consider rolling up.";
     rec_action := "Roll to higher strikes: " ++ Py.str (Py.int current_price) ++
                   "/" ++ Py.str (Py.int current_price + 5) |}.

Definition roll_down_rec (current_price : Q) : Recommendation :=
  {| rec_type := "adjust";
     rec_urgency := "medium";
     rec_reason := "Price moved below spread. Consider rolling down.";
     rec_action := "Roll to lower strikes: " ++ Py.str (Py.int current_price - 5) ++
                   "/" ++ Py.str (Py.int current_price) |}.

Definition condor_rec : Recommendation :=
  {| rec_type := "adjust";
     rec_urgency := "medium";
     rec_reason := "Consider adjusting the tested side of the iron condor.";
     rec_action := "Roll the threatened side further OTM or close that side" |}.

Definition take_profit_rec (profit_percent : Q) : Recommendation :=
  {| rec_type := "take_profit";
     rec_urgency := "low";
     rec_reason := "Position is at " ++ Py.fmt1 profit_percent ++ "% of max profit.";
     rec_action := "Consider closing to lock in profits" |}.

Definition partial_close_rec (profit_percent : Q) : Recommendation :=
  {| rec_type := "partial_close";
     rec_urgency := "low";
     rec_reason := "Position is at " ++ Py.fmt1 profit_percent ++ "% of max profit.";
     rec_action := "Consider closing half the position" |}.

Definition info_rec : Recommendation :=
  {| rec_type := "info";
     rec_urgency := "low";
     rec_reason := "Time decay accelerates in final 2 weeks before expiration.";
     rec_action := "Monitor theta and consider rolling if holding through expiration" |}.

(** [x > y] on floats, as a boolean. *)
Definition Qgtb (x y : Q) : bool :=
  match Qcompare x y with Gt => true | _ => false end.

(** [x < y] on floats, as a boolean. *)
Definition Qltb (x y : Q) : bool :=
  match Qcompare x y with Lt => true | _ => false end.

(** Line 392:
    [abs(current_pnl) / (abs(max_loss) if max_loss != 0 else 1) * 100]. *)
Definition loss_divisor (max_loss : Q) : Q :=
  if negb (Qeq_bool max_loss 0) then Qabs max_loss else 1.

Definition loss_percent_of (current_pnl max_loss : Q) : result Q :=
  q <- Py.div (Qabs current_pnl) (loss_divisor max_loss) ;;
  Ok (q * 100).

(** Line 441:
    [current_pnl / max_profit * 100 if max_profit > 0 else 0]. *)
Definition profit_percent_of (current_pnl max_profit : Q) : result Q :=
  if Qgtb max_profit 0
  then q <- Py.div current_pnl max_profit ;; Ok (q * 100)
  else Ok 0.

Definition calls_of (opts : list OptionLeg) : list OptionLeg :=
  filter (fun o => (type o =? "call")%string) opts.

Definition puts_of (opts : list OptionLeg) : list OptionLeg :=
  filter (fun o => (type o =? "put")%string) opts.

(** Lines 391-437, the block under [if current_pnl < 0]; [recs] is the
    list built so far and the result is the list after the block. *)
Definition loss_rules (current_price current_pnl max_loss : Q)
    (opts : list OptionLeg) (recs : list Recommendation)
    : result (list Recommendation) :=
  loss_percent <- loss_percent_of current_pnl max_loss ;;
  let recs :=
    if Qgtb loss_percent 50 then recs ++ [close_rec loss_percent]
    else if Qgtb loss_percent 25 then recs ++ [roll_rec loss_percent]
    else recs in
  let calls := calls_of opts in
  let puts := puts_of opts in
  recs <-
    (if ((length calls =? 2)%nat && (length puts =? 0)%nat)%bool
     then top <- Py.max (map strike calls) ;;
          Ok (if Qgtb current_price top
              then recs ++ [roll_up_rec current_price] else recs)
     else Ok recs) ;;
  recs <-
    (if ((length puts =? 2)%nat && (length calls =? 0)%nat)%bool
     then low <- Py.min (map strike puts) ;;
          Ok (if Qltb current_price low
              then recs ++ [roll_down_rec current_price] else recs)
     else Ok recs) ;;
  Ok (if ((length calls =? 2)%nat && (length puts =? 2)%nat)%bool
      then recs ++ [condor_rec] else recs).

(** Lines 440-455, the block under [if current_pnl > 0]. *)
Definition profit_rules (current_pnl max_profit : Q)
    (recs : list Recommendation) : result (list Recommendation) :=
  profit_percent <- profit_percent_of current_pnl max_profit ;;
  Ok (if Qgtb profit_percent 75 then recs ++ [take_profit_rec profit_percent]
      else if Qgtb profit_percent 50 then recs ++ [partial_close_rec profit_percent]
      else recs).

(** Lines 388-463: the whole recommendation list. *)
Definition recommendations_of (current_price current_pnl max_profit max_loss : Q)
    (opts : list OptionLeg) : result (list Recommendation) :=
  let recs := [] in
  recs <- (if Qltb current_pnl 0
           then loss_rules current_price current_pnl max_loss opts recs
           else Ok recs) ;;
  recs <- (if Qgtb current_pnl 0
           then profit_rules current_pnl max_profit recs
           else Ok recs) ;;
  Ok (recs ++ [info_rec]).

(** What the loss-percent rule alone leaves in the list. *)
Definition loss_percent_recs (loss_percent : Q) : list Recommendation :=
  if Qgtb loss_percent 50 then [close_rec loss_percent]
  else if Qgtb loss_percent 25 then [roll_rec loss_percent]
  else [].

(* ------------------------------------------------------------------ *)
(** ** The endpoint: [analyze_adjustment_scenarios] *)

Definition analyze_adjustment_scenarios (scenario : AdjustmentScenario)
    : result ScenarioResult :=
  let options := options scenario in
  let current_price := current_price scenario in
  let current_pnl := calculate_payoff current_price options in
  let scenario_price := scenario_price_of scenario in
  let scenario_pnl := calculate_payoff scenario_price options in
  max_profit <- Py.max (scan_payoffs current_price options) ;;
  max_loss <- Py.min (scan_payoffs current_price options) ;;
  recommendations <-
    recommendations_of current_price current_pnl max_profit max_loss options ;;
  Ok {| r_current_price := current_price;
        r_scenario_price := scenario_price;
        r_current_pnl := Py.round2 current_pnl;
        r_scenario_pnl := Py.round2 scenario_pnl;
        r_pnl_change := Py.round2 (scenario_pnl - current_pnl);
        r_max_profit := Py.round2 max_profit;
        r_max_loss := Py.round2 max_loss;
        r_recommendations := recommendations |}.

(* ------------------------------------------------------------------ *)
(** ** Concrete runs *)

Definition leg (t a : string) (k pr : Q) (n : Z) : OptionLeg :=
  {| type := t; action := a; strike := k; premium := pr; quantity := n;
     expiration := None; volatility := Some (1 # 5) |}.

(** The request of the repository's own test ([test_adjustment_analysis]). *)
Definition aapl_request : AdjustmentScenario :=
  {| ticker := "AAPL";
     current_price := 371 # 2;
     options := [ leg "call" "sell" 180 (5 # 2) 1; leg "call" "buy" 185 (6 # 5) 1 ];
     scenario_type := "price_up";
     scenario_value := Some (1 # 10) |}.


(** A scenario kind that is none of the four the model lists. *)
Definition unknown_kind_request : AdjustmentScenario :=
  {| ticker := "AAPL";
     current_price := 100;
     options := [ leg "call" "buy" 100 2 1 ];
     scenario_type := "earnings_gap";
     scenario_value := Some (1 # 2) |}.

(** A short straddle struck at 100.5, with the price at the strike. *)
Definition straddle_request : AdjustmentScenario :=
  {| ticker := "SPY";
     current_price := 201 # 2;
     options := [ leg "call" "sell" (201 # 2) 1 1; leg "put" "sell" (201 # 2) 1 1 ];
     scenario_type := "price_up";
     scenario_value := None |}.


(** A bull put spread (bought 100, sold 105) with the price below it. *)
Definition put_spread_request : AdjustmentScenario :=
  {| ticker := "MSFT";
     current_price := 379 # 4;
     options := [ leg "put" "buy" 100 1 1; leg "put" "sell" 105 3 1 ];
     scenario_type := "price_down";
     scenario_value := None |}.

(** A price-up scenario whose magnitude is supplied as 0.0. *)
Definition zero_move_request : AdjustmentScenario :=
  {| ticker := "AAPL";
     current_price := 100;
     options := [ leg "call" "buy" 100 5 1 ];
     scenario_type := "price_up";
     scenario_value := Some 0 |}.

(** A bought call (strike 100, premium 5) at its break-even price 105. *)
Definition break_even_request : AdjustmentScenario :=
  {| ticker := "AAPL";
     current_price := 105;
     options := [ leg "call" "buy" 100 5 1 ];
     scenario_type := "time_decay";
     scenario_value := None |}.

(** The same request with another [scenario_value]. *)
Definition with_scenario_value (scenario : AdjustmentScenario) (v : option Q)
    : AdjustmentScenario :=
  {| ticker := ticker scenario;
     current_price := current_price scenario;
     options := options scenario;
     scenario_type := scenario_type scenario;
     scenario_value := v |}.

(* ------------------------------------------------------------------ *)
(** ** Roll suggestions: [get_roll_suggestions] (lines 476-515) *)

(** The endpoints answer with a value or raise an [HTTPException]. *)
Inductive http (A : Type) : Type :=
| Respond (a : A)
| HTTPException (status_code : Z) (detail : string).

Arguments Respond {A} a.
Arguments HTTPException {A} status_code detail.

(** A Python number that is a float or an int: [new_strike] starts as the
    float [opt["strike"]] and becomes an int when the leg is rolled. *)
Inductive num : Type :=
| Float (q : Q)
| Int (z : Z).

Definition num_val (n : num) : Q :=
  match n with
  | Float q => q
  | Int z => inject_Z z
  end.

(** One entry of [roll_suggestions]. *)
Record RollSuggestion : Type := {
  original : string;
  suggested : string;
  reason : string;
  estimated_credit_debit : Q
}.



Section RollSuggestions.

(** [str.upper] and [str] of a float belong to Python, not to this program:
    the model takes them as given. *)
Variable upper : string -> string.
Variable float_str : Q -> string.

Definition num_str (n : num) : string :=
  match n with
  | Float q => float_str q
  | Int z => Py.str z
  end.

(** Lines 495-499: the strike a leg is rolled to. *)
Definition new_strike_of (current_price : Q) (opt : OptionLeg) : num :=
  if ((type opt =? "call")%string && Qgtb current_price (strike opt))%bool
  then Int (Py.round_half_even (current_price / 5) * 5 + 5)
  else if ((type opt =? "put")%string && Qltb current_price (strike opt))%bool
  then Int (Py.round_half_even (current_price / 5) * 5 - 5)
  else Float (strike opt).

(** Lines 502-507: the suggestion appended for a leg. *)
Definition suggestion_of (opt : OptionLeg) (new_strike : num) : RollSuggestion :=
  {| original := upper (action opt) ++ " " ++ upper (type opt) ++ " $" ++
                 float_str (strike opt);
     suggested := upper (action opt) ++ " " ++ upper (type opt) ++ " $" ++
                  num_str new_strike;
     reason := "Strike adjustment based on current price movement";
     estimated_credit_debit :=
       Py.round2 ((num_val new_strike - strike opt) * (1 # 10)) |}.

(** One iteration of the loop of lines 494-507. *)
Definition roll_step (current_price : Q) (suggestions : list RollSuggestion)
    (opt : OptionLeg) : list RollSuggestion :=
  let new_strike := new_strike_of current_price opt in
  if negb (Qeq_bool (num_val new_strike) (strike opt))
  then suggestions ++ [suggestion_of opt new_strike]
  else suggestions.



End RollSuggestions.


(** Instances of the two Python functions for concrete runs: [str.upper] on
    ASCII text, and [str] of a whole-number float such as [185.0]. *)
Definition ascii_upper_char (c : ascii) : ascii :=
  let n := nat_of_ascii c in
  if ((97 <=? n) && (n <=? 122))%nat then ascii_of_nat (n - 32) else c.

Fixpoint ascii_upper (s : string) : string :=
  match s with
  | EmptyString => EmptyString
  | String c s' => String (ascii_upper_char c) (ascii_upper s')
  end.

Definition whole_float_str (q : Q) : string := (Py.str (Py.int q) ++ ".0")%string.


(* ------------------------------------------------------------------ *)
(** ** Mock option chain: [get_option_chain] (lines 244-284) *)

(** [round(x, 4)]. *)
Definition round4 (x : Q) : Q :=
  inject_Z (Py.round_half_even (x * 10000)) / 10000.

(** One entry of the [options] list of the chain. *)
Record ChainRow : Type := {
  chain_strike : Z;
  callBid : Q;
  callAsk : Q;
  callVolume : Z;
  putBid : Q;
  putAsk : Q;
  putVolume : Z;
  iv : Q;
  isAtTheMoney : bool
}.

(** The dictionary [get_option_chain] returns. *)
Record ChainResponse : Type := {
  chain_symbol : string;
  currentPrice : Q;
  expirations : list string;
  chain_options : list ChainRow
}.

Section OptionChain.

(** The float [time_to_expiry ** 0.5], that is [(30 / 365) ** 0.5]: a
    square root is not a rational operation, so its value is taken as
    given. *)
Variable sqrt_time_to_expiry : Q.

(** Line 255: [round(current_price / 5) * 5]. *)
Definition base_strike_of (current_price : Q) : Z :=
  (Py.round_half_even (current_price / 5) * 5)%Z.

(** Line 264. *)
Definition call_premium_of (current_price : Q) (strike : Z)
    (distance base_iv : Q) : Q :=
  if Qle_bool (inject_Z strike) current_price
  then Qmax (1 # 100)
         ((current_price - inject_Z strike) * (1 # 2)
          + current_price * base_iv * sqrt_time_to_expiry * (2 # 5))
  else current_price * base_iv * sqrt_time_to_expiry * (2 # 5) * (1 - distance).

(** Line 265. *)
Definition put_premium_of (current_price : Q) (strike : Z)
    (distance base_iv : Q) : Q :=
  if Qle_bool current_price (inject_Z strike)
  then Qmax (1 # 100)
         ((inject_Z strike - current_price) * (1 # 2)
          + current_price * base_iv * sqrt_time_to_expiry * (2 # 5))
  else current_price * base_iv * sqrt_time_to_expiry * (2 # 5) * (1 - distance).

(** Lines 259-277: the row of one positive strike. *)
Definition chain_row (current_price : Q) (strike : Z) : result ChainRow :=
  distance <- Py.div (Qabs (inject_Z strike - current_price)) current_price ;;
  let base_iv := (1 # 4) + distance * (1 # 10) in
  let call_premium := call_premium_of current_price strike distance base_iv in
  let put_premium := put_premium_of current_price strike distance base_iv in
  Ok {| chain_strike := strike;
        callBid := Py.round2 (call_premium * (19 # 20));
        callAsk := Py.round2 (call_premium * (21 # 20));
        callVolume := Py.int (10000 * (1 - distance));
        putBid := Py.round2 (put_premium * (19 # 20));
        putAsk := Py.round2 (put_premium * (21 # 20));
        putVolume := Py.int (8000 * (1 - distance));
        iv := round4 base_iv;
        isAtTheMoney := Qltb (Qabs (inject_Z strike - current_price)) (5 # 2) |}.

(** The loop of lines 256-277 over the values [steps] of [i]; [strikes] is
    the list built so far. *)
Fixpoint chain_loop (current_price : Q) (base_strike : Z) (steps : list Z)
    (strikes : list ChainRow) : result (list ChainRow) :=
  match steps with
  | [] => Ok strikes
  | i :: steps' =>
      let strike := (base_strike + i * 5)%Z in
      if (strike >? 0)%Z
      then row <- chain_row current_price strike ;;
           chain_loop current_price base_strike steps' (strikes ++ [row])
      else chain_loop current_price base_strike steps' strikes
  end.

(** The endpoint, given the price of the quote ([None] when the quote
    lookup raised). *)
Definition get_option_chain (symbol : string) (expiration : option string)
    (quote : option Q) : result ChainResponse :=
  let current_price :=
    match quote with
    | Some price => price
    | None => 150
    end in
  let base_strike := base_strike_of current_price in
  strikes <- chain_loop current_price base_strike (Py.range (-10) 11) [] ;;
  Ok {| chain_symbol := symbol;
        currentPrice := current_price;
        expirations := ["2025-01-17"; "2025-01-24"; "2025-01-31";
                        "2025-02-21"; "2025-03-21"]%string;
        chain_options := strikes |}.

End OptionChain.

(** The positive strikes of the ladder [base_strike + 5 i], in the order of
    the loop. *)
Definition chain_strikes (base_strike : Z) (steps : list Z) : list Z :=
  filter (fun k => (k >? 0)%Z) (map (fun i => (base_strike + i * 5)%Z) steps).

(** A rational close to [(30 / 365) ** 0.5], for concrete runs. *)
Definition sqrt_time_to_expiry_approx : Q := 2867 # 10000.

(* ------------------------------------------------------------------ *)
(** ** Watchlist: [add_to_watchlist], [remove_from_watchlist] (lines 530-544) *)

(** A document of [watchlist_collection]: the two fields the endpoints
    write and query. *)
Record WatchDoc : Type := {
  doc_user_id : string;
  doc_symbol : string
}.

(** The collection is the state the endpoints share; it is threaded
    explicitly, in insertion order. *)
Definition collection : Type := list WatchDoc.

(** The filter [{"user_id": user_id, "symbol": symbol}]. *)
Definition matches (user_id symbol : string) (d : WatchDoc) : bool :=
  ((doc_user_id d =? user_id)%string && (doc_symbol d =? symbol)%string)%bool.

(** [find_one(filter)]: the first matching document, if any. *)
Definition find_one (user_id symbol : string) (coll : collection)
    : option WatchDoc :=
  find (matches user_id symbol) coll.

(** [insert_one(doc)]. *)
Definition insert_one (d : WatchDoc) (coll : collection) : collection :=
  coll ++ [d].

(** [delete_one(filter)]: removes the first matching document; the second
    component is [deleted_count]. *)
Fixpoint delete_one (user_id symbol : string) (coll : collection)
    : collection * Z :=
  match coll with
  | [] => ([], 0%Z)
  | d :: coll' =>
      if matches user_id symbol d then (coll', 1%Z)
      else let (rest, n) := delete_one user_id symbol coll' in (d :: rest, n)
  end.

Section Watchlist.

(** [str.upper], as for the roll suggestions. *)
Variable upper : string -> string.

(** The answer and the collection after the call; [user_id] is the id of
    the authenticated user. *)
Definition add_to_watchlist (symbol user_id : string) (coll : collection)
    : http string * collection :=
  match find_one user_id (upper symbol) coll with
  | Some _ => (HTTPException 400 "Symbol already in watchlist", coll)
  | None =>
      (Respond "Added to watchlist"%string,
       insert_one {| doc_user_id := user_id; doc_symbol := upper symbol |} coll)
  end.

Definition remove_from_watchlist (symbol user_id : string) (coll : collection)
    : http string * collection :=
  let (coll', deleted_count) := delete_one user_id (upper symbol) coll in
  if (deleted_count =? 0)%Z
  then (HTTPException 404 "Symbol not in watchlist", coll')
  else (Respond "Removed from watchlist"%string, coll').

(** A call of one of the two endpoints. *)
Inductive call : Type :=
| Add (symbol user_id : string)
| Remove (symbol user_id : string).

Definition step (coll : collection) (c : call) : collection :=
  match c with
  | Add symbol user_id => snd (add_to_watchlist symbol user_id coll)
  | Remove symbol user_id => snd (remove_from_watchlist symbol user_id coll)
  end.

(** The collection after a sequence of calls. *)
Definition run (calls : list call) (coll : collection) : collection :=
  fold_left step calls coll.

End Watchlist.

(* ------------------------------------------------------------------ *)
(** ** Strategies: [create_strategy] ... [delete_strategy] (lines 287-348) *)

(** The pydantic models of the two request bodies. *)
Record StrategyCreate : Type := {
  sc_name : string;
  sc_ticker : string;
  sc_options : list OptionLeg;
  sc_notes : option string;
  sc_entry_price : option Q;
  sc_target_profit : option Q;
  sc_stop_loss : option Q
}.

Record StrategyUpdate : Type := {
  su_name : option string;
  su_notes : option string;
  su_target_profit : option Q;
  su_stop_loss : option Q;
  su_strategy_status : option string
}.

(** A document of [strategies_collection]: the keys [create_strategy]
    writes, and the key [strategy_status] that only [update_strategy] can
    add. *)
Record StrategyDoc : Type := {
  sd_id : string;                       (* _id, as its string *)
  sd_user_id : string;
  sd_name : string;
  sd_ticker : string;
  sd_options : list OptionLeg;
  sd_notes : option string;
  sd_entry_price : option Q;
  sd_target_profit : option Q;
  sd_stop_loss : option Q;
  sd_status : string;
  sd_created_at : string;
  sd_updated_at : string;
  sd_strategy_status : option string    (* absent until an update sets it *)
}.

(** What a strategy endpoint does: it returns, raises an [HTTPException],
    or lets the [InvalidId] of [ObjectId(...)] escape. *)
Inductive answer (A : Type) : Type :=
| Returned (a : A)
| RaisedHTTP (status_code : Z) (detail : string)
| RaisedInvalidId.

Arguments Returned {A} a.
Arguments RaisedHTTP {A} status_code detail.
Arguments RaisedInvalidId {A}.

(** The filter [{"_id": oid, "user_id": user_id}]. *)
Definition owned_by (oid user_id : string) (d : StrategyDoc) : bool :=
  ((sd_id d =? oid)%string && (sd_user_id d =? user_id)%string)%bool.

(** [update_one(filter, {"$set": ...})]: the first matching document is
    rewritten by [set]; the second component is [matched_count]. *)
Fixpoint update_one (f : StrategyDoc -> bool) (set : StrategyDoc -> StrategyDoc)
    (coll : list StrategyDoc) : list StrategyDoc * Z :=
  match coll with
  | [] => ([], 0%Z)
  | d :: coll' =>
      if f d then (set d :: coll', 1%Z)
      else let (rest, n) := update_one f set coll' in (d :: rest, n)
  end.

(** [delete_one(filter)] on strategies. *)
Fixpoint delete_strategy_one (f : StrategyDoc -> bool) (coll : list StrategyDoc)
    : list StrategyDoc * Z :=
  match coll with
  | [] => ([], 0%Z)
  | d :: coll' =>
      if f d then (coll', 1%Z)
      else let (rest, n) := delete_strategy_one f coll' in (d :: rest, n)
  end.

(** Lines 332-333 and the [$set]: only the fields of the update that are
    not [None] are written, under their own names, and [updated_at]. *)
Definition apply_update (update : StrategyUpdate) (now : string)
    (d : StrategyDoc) : StrategyDoc :=
  {| sd_id := sd_id d;
     sd_user_id := sd_user_id d;
     sd_name := match su_name update with Some v => v | None => sd_name d end;
     sd_ticker := sd_ticker d;
     sd_options := sd_options d;
     sd_notes := match su_notes update with Some v => Some v | None => sd_notes d end;
     sd_entry_price := sd_entry_price d;
     sd_target_profit :=
       match su_target_profit update with
       | Some v => Some v
       | None => sd_target_profit d
       end;
     sd_stop_loss :=
       match su_stop_loss update with Some v => Some v | None => sd_stop_loss d end;
     sd_status := sd_status d;
     sd_created_at := sd_created_at d;
     sd_updated_at := now;
     sd_strategy_status :=
       match su_strategy_status update with
       | Some v => Some v
       | None => sd_strategy_status d
       end |}.

Section Strategies.

(** [ObjectId(s)] belongs to the driver: it gives the id as its canonical
    string, or [None] when it raises [InvalidId]. *)
Variable ObjectId : string -> option string.

(** The order in which [find(query).sort("created_at", -1)] yields the
    matching documents. *)
Variable sort_created_desc : list StrategyDoc -> list StrategyDoc.

(** [now1], [now2] are the two readings of the clock and [inserted_id] the
    id the driver assigns. *)
Definition create_strategy (strategy : StrategyCreate) (user_id : string)
    (now1 now2 inserted_id : string) (coll : list StrategyDoc)
    : StrategyDoc * list StrategyDoc :=
  let strategy_doc :=
    {| sd_id := inserted_id;
       sd_user_id := user_id;
       sd_name := sc_name strategy;
       sd_ticker := sc_ticker strategy;
       sd_options := sc_options strategy;
       sd_notes := sc_notes strategy;
       sd_entry_price := sc_entry_price strategy;
       sd_target_profit := sc_target_profit strategy;
       sd_stop_loss := sc_stop_loss strategy;
       sd_status := "active";
       sd_created_at := now1;
       sd_updated_at := now2;
       sd_strategy_status := None |} in
  (strategy_doc, coll ++ [strategy_doc]).

Definition get_strategies (user_id : string) (filter_status : option string)
    (coll : list StrategyDoc) : list StrategyDoc :=
  let query (d : StrategyDoc) :=
    ((sd_user_id d =? user_id)%string &&
     match filter_status with
     | Some f => if (f =? EmptyString)%string then true else (sd_status d =? f)%string
     | None => true
     end)%bool in
  sort_created_desc (filter query coll).

Definition get_strategy (strategy_id user_id : string) (coll : list StrategyDoc)
    : answer StrategyDoc :=
  match ObjectId strategy_id with
  | None => RaisedInvalidId
  | Some oid =>
      match find (owned_by oid user_id) coll with
      | None => RaisedHTTP 404 "Strategy not found"
      | Some strategy => Returned strategy
      end
  end.

Definition update_strategy (strategy_id : string) (update : StrategyUpdate)
    (user_id now : string) (coll : list StrategyDoc)
    : answer string * list StrategyDoc :=
  match ObjectId strategy_id with
  | None => (RaisedInvalidId, coll)
  | Some oid =>
      let (coll', matched_count) :=
        update_one (owned_by oid user_id) (apply_update update now) coll in
      if (matched_count =? 0)%Z
      then (RaisedHTTP 404 "Strategy not found", coll')
      else (Returned "Strategy updated"%string, coll')
  end.

Definition delete_strategy (strategy_id user_id : string)
    (coll : list StrategyDoc) : answer string * list StrategyDoc :=
  match ObjectId strategy_id with
  | None => (RaisedInvalidId, coll)
  | Some oid =>
      let (coll', deleted_count) :=
        delete_strategy_one (owned_by oid user_id) coll in
      if (deleted_count =? 0)%Z
      then (RaisedHTTP 404 "Strategy not found", coll')
      else (Returned "Strategy deleted"%string, coll')
  end.

(** A call of one of the writing endpoints. *)
Inductive strategy_call : Type :=
| Create (strategy : StrategyCreate) (user_id now1 now2 inserted_id : string)
| Update (strategy_id : string) (update : StrategyUpdate) (user_id now : string)
| Delete (strategy_id user_id : string).

Definition strategy_step (coll : list StrategyDoc) (c : strategy_call)
    : list StrategyDoc :=
  match c with
  | Create strategy user_id now1 now2 inserted_id =>
      snd (create_strategy strategy user_id now1 now2 inserted_id coll)
  | Update strategy_id update user_id now =>
      snd (update_strategy strategy_id update user_id now coll)
  | Delete strategy_id user_id =>
      snd (delete_strategy strategy_id user_id coll)
  end.

(** The collection after a sequence of calls. *)
Definition strategy_run (calls : list strategy_call) (coll : list StrategyDoc)
    : list StrategyDoc :=
  fold_left strategy_step calls coll.

End Strategies.

(** Instances for concrete runs: ids of 24 characters are accepted as they
    are, and the documents are sorted by insertion, latest first. *)
Definition ObjectId_by_length (s : string) : option string :=
  if (String.length s =? 24)%nat then Some s else None.

Definition latest_first (l : list StrategyDoc) : list StrategyDoc := rev l.

(* ------------------------------------------------------------------ *)
(** ** Vocabulary for the properties of the payoff *)

(** The same leg seen from the counterparty: a bought leg becomes a sold
    one, and any other leg (which the evaluator treats as sold) a bought
    one. *)
Definition flip_leg (opt : OptionLeg) : OptionLeg :=
  {| type := type opt;
     action := if (action opt =? "buy")%string then "sell" else "buy";
     strike := strike opt;
     premium := premium opt;
     quantity := quantity opt;
     expiration := expiration opt;
     volatility := volatility opt |}.

(** The premium of all the legs, in currency: [premium * quantity * 100]. *)
Definition total_premium (opts : list OptionLeg) : Q :=
  sumQ (map (fun o => premium o * inject_Z (quantity o) * 100) opts).

(** A leg the evaluator takes as bought. *)
Definition bought (opt : OptionLeg) : Prop := action opt = "buy"%string.

(** A leg the evaluator takes as sold: any action other than buy. *)
Definition sold (opt : OptionLeg) : Prop := action opt <> "buy"%string.

(** A leg that gains when the price rises: a bought call, or a sold leg
    that the evaluator takes as a put. *)
Definition bullish (opt : OptionLeg) : Prop :=
  (type opt = "call"%string /\ action opt = "buy"%string) \/
  (type opt <> "call"%string /\ action opt <> "buy"%string).

(** An iron condor (puts 90/95, calls 105/110) with the price above it. *)
Definition condor_request : AdjustmentScenario :=
  {| ticker := "SPY";
     current_price := 120;
     options := [ leg "put" "buy" 90 (1 # 2) 1; leg "put" "sell" 95 1 1;
                  leg "call" "sell" 105 1 1; leg "call" "buy" 110 (1 # 2) 1 ];
     scenario_type := "volatility_increase";
     scenario_value := None |}.

(** A bought call (strike 100, premium 5) well in the money. *)
Definition winning_call_request : AdjustmentScenario :=
  {| ticker := "AAPL";
     current_price := 140;
     options := [ leg "call" "buy" 100 5 1 ];
     scenario_type := "price_up";
     scenario_value := Some (1 # 4) |}.

(** What the profit rule alone leaves in the list. *)
Definition profit_percent_recs (profit_percent : Q) : list Recommendation :=
  if Qgtb profit_percent 75 then [take_profit_rec profit_percent]
  else if Qgtb profit_percent 50 then [partial_close_rec profit_percent]
  else [].

(* ------------------------------------------------------------------ *)
(** ** The design document's wording of the payoff, the range and the strikes *)

(** The payoff formula in the words of the design document: legs with a
    kind in {call, put} and a side in {buy, sell}. *)
Module Spec.

Inductive Kind : Type := Call | Put.
Inductive Side : Type := Buy | Sell.

Definition kind_of (s : string) : option Kind :=
  if (s =? "call")%string then Some Call
  else if (s =? "put")%string then Some Put
  else None.

Definition side_of (s : string) : option Side :=
  if (s =? "buy")%string then Some Buy
  else if (s =? "sell")%string then Some Sell
  else None.

(** A leg of the data model: a call or a put, bought or sold. *)
Definition is_leg (opt : OptionLeg) : Prop :=
  kind_of (type opt) <> None /\ side_of (action opt) <> None.

(** [max(0, price - strike)] for a call, [max(0, strike - price)] for a put. *)
Definition intrinsic (k : Kind) (price strike : Q) : Q :=
  match k with
  | Call => Qmax 0 (price - strike)
  | Put => Qmax 0 (strike - price)
  end.

(** [(intrinsic - premium) * quantity * 100] if bought,
    [(premium - intrinsic) * quantity * 100] if sold. *)
Definition pnl (s : Side) (intrinsic premium : Q) (quantity : Z) : Q :=
  match s with
  | Buy => (intrinsic - premium) * inject_Z quantity * 100
  | Sell => (premium - intrinsic) * inject_Z quantity * 100
  end.

(** The profit or loss of one leg; [0] stands for a record that is not a
    leg of the data model, on which the document says nothing. *)
Definition leg_payoff (price : Q) (opt : OptionLeg) : Q :=
  match kind_of (type opt), side_of (action opt) with
  | Some k, Some s =>
      pnl s (intrinsic k price (strike opt)) (premium opt) (quantity opt)
  | _, _ => 0
  end.

(** The position payoff: the sum over all legs. *)
Definition payoff (price : Q) (legs : list OptionLeg) : Q :=
  sumQ (map (leg_payoff price) legs).

(** The scanned range as the document words it:
    [[floor(0.5 * p), ceil(1.5 * p))]. *)
Definition scan_prices (current_price : Q) : list Z :=
  Py.range (Qfloor ((1 # 2) * current_price)) (Qceiling ((3 # 2) * current_price)).

(** [round(x)]: the nearest integer (Python rounds ties to even). *)
Definition round (x : Q) : Z := Py.round_half_even x.

(** The strikes the document suggests for the two spread rules. *)
Definition roll_up_action (current_price : Q) : string :=
  "Roll to higher strikes: " ++ Py.str (round current_price) ++
  "/" ++ Py.str (round current_price + 5).

Definition roll_down_action (current_price : Q) : string :=
  "Roll to lower strikes: " ++ Py.str (round current_price - 5) ++
  "/" ++ Py.str (round current_price).

End Spec.

(* ------------------------------------------------------------------ *)
(** ** Proof automation *)

(** Every branch of the rule blocks extends the list it is given. *)
Ltac extends_by l := exists l; rewrite ?app_nil_r, <- ?app_assoc; reflexivity.

(* ------------------------------------------------------------------ *)
(** ** Facts about the built-ins *)

Lemma bind_Ok_inv {A B : Type} (m : result A) (k : A -> result B) (b : B) :
  bind m k = Ok b -> exists a, m = Ok a /\ k a = Ok b.
Proof.
  destruct m as [a | e]; simpl; intros H; [ now exists a | discriminate ].
Qed.

Lemma Qgtb_true (x y : Q) : Qgtb x y = true <-> y < x.
Proof.
  unfold Qgtb. rewrite Qgt_alt.
  destruct (Qcompare x y); split; intros H; congruence.
Qed.

Lemma Qltb_true (x y : Q) : Qltb x y = true <-> x < y.
Proof.
  unfold Qltb. rewrite Qlt_alt.
  destruct (Qcompare x y); split; intros H; congruence.
Qed.

Lemma Qltb_false (x y : Q) : Qltb x y = false <-> y <= x.
Proof.
  rewrite <- not_true_iff_false, Qltb_true. split.
  - apply Qnot_lt_le.
  - apply Qle_not_lt.
Qed.

Lemma Qgtb_false (x y : Q) : Qgtb x y = false <-> x <= y.
Proof.
  rewrite <- not_true_iff_false, Qgtb_true. split.
  - apply Qnot_lt_le.
  - apply Qle_not_lt.
Qed.

Lemma div_Ok (x y : Q) : ~ y == 0 -> Py.div x y = Ok (x / y).
Proof.
  intros Hy. unfold Py.div.
  destruct (Qeq_bool y 0) eqn:E; [ | reflexivity ].
  apply Qeq_bool_eq in E. contradiction.
Qed.


(** *** [range] *)

Lemma range_In (lo hi n : Z) : In n (Py.range lo hi) <-> (lo <= n < hi)%Z.
Proof.
  unfold Py.range. rewrite in_map_iff. split.
  - intros (i & <- & Hi). apply in_seq in Hi. lia.
  - intros H. exists (Z.to_nat (n - lo)). split; [ lia | ].
    apply in_seq. lia.
Qed.

Lemma range_nil (lo hi : Z) : Py.range lo hi = [] <-> (hi <= lo)%Z.
Proof.
  unfold Py.range. split.
  - intros H. apply map_eq_nil in H.
    destruct (Z.to_nat (hi - lo)) eqn:E; [ lia | discriminate ].
  - intros H. replace (Z.to_nat (hi - lo)) with 0%nat by lia. reflexivity.
Qed.

(** *** [max] and [min] of a sequence *)

Lemma fold_Qmax_spec (xs : list Q) (x : Q) :
  In (fold_left Qmax xs x) (x :: xs) /\
  forall y, In y (x :: xs) -> y <= fold_left Qmax xs x.
Proof.
  revert x. induction xs as [ | a xs IH]; intros x; simpl.
  - split; [ now left | ]. intros y [<- | []]. apply Qle_refl.
  - destruct (IH (Qmax x a)) as [Hin Hle]. split.
    + destruct Hin as [Hin | Hin]; [ | now right; right ].
      rewrite <- Hin.
      unfold Qmax, GenericMinMax.gmax.
      destruct (Qcompare x a); auto.
    + intros y [<- | [<- | Hy]].
      * eapply Qle_trans; [ apply Q.le_max_l | apply Hle; now left ].
      * eapply Qle_trans; [ apply Q.le_max_r | apply Hle; now left ].
      * apply Hle. now right.
Qed.

Lemma fold_Qmin_spec (xs : list Q) (x : Q) :
  In (fold_left Qmin xs x) (x :: xs) /\
  forall y, In y (x :: xs) -> fold_left Qmin xs x <= y.
Proof.
  revert x. induction xs as [ | a xs IH]; intros x; simpl.
  - split; [ now left | ]. intros y [<- | []]. apply Qle_refl.
  - destruct (IH (Qmin x a)) as [Hin Hle]. split.
    + destruct Hin as [Hin | Hin]; [ | now right; right ].
      rewrite <- Hin.
      unfold Qmin, GenericMinMax.gmin.
      destruct (Qcompare x a); auto.
    + intros y [<- | [<- | Hy]].
      * eapply Qle_trans; [ apply Hle; now left | apply Q.le_min_l ].
      * eapply Qle_trans; [ apply Hle; now left | apply Q.le_min_r ].
      * apply Hle. now right.
Qed.

Lemma max_Ok (l : list Q) :
  l <> [] ->
  exists m, Py.max l = Ok m /\ In m l /\ forall y, In y l -> y <= m.
Proof.
  destruct l as [ | x xs]; [ congruence | intros _ ].
  exists (fold_left Qmax xs x). split; [ reflexivity | apply fold_Qmax_spec ].
Qed.

Lemma min_Ok (l : list Q) :
  l <> [] ->
  exists m, Py.min l = Ok m /\ In m l /\ forall y, In y l -> m <= y.
Proof.
  destruct l as [ | x xs]; [ congruence | intros _ ].
  exists (fold_left Qmin xs x). split; [ reflexivity | apply fold_Qmin_spec ].
Qed.

(** *** [int]: truncation is [floor] on non-negative floats and [ceil] on
    non-positive ones *)

Lemma int_floor (x : Q) : 0 <= x -> Py.int x = Qfloor x.
Proof.
  destruct x as [n d]. unfold Qle, Py.int, Qfloor. simpl. intros H.
  apply Z.quot_div_nonneg; lia.
Qed.

Lemma int_ceiling (x : Q) : x <= 0 -> Py.int x = Qceiling x.
Proof.
  destruct x as [n d]. unfold Qle, Py.int, Qceiling, Qfloor. simpl. intros H.
  replace n with (- (- n))%Z at 1 by lia.
  rewrite Z.quot_opp_l by lia.
  f_equal. apply Z.quot_div_nonneg; lia.
Qed.

Lemma Qfloor_lower (x : Q) (n : Z) : inject_Z n <= x -> (n <= Qfloor x)%Z.
Proof.
  intros H. rewrite <- (Qfloor_Z n). now apply Qfloor_resp_le.
Qed.

Lemma Qfloor_upper (x : Q) (n : Z) : x < inject_Z n -> (Qfloor x < n)%Z.
Proof.
  intros H.
  assert (Hlt : inject_Z (Qfloor x) < inject_Z n)
    by (eapply Qle_lt_trans; [ apply Qfloor_le | exact H ]).
  rewrite <- Zlt_Qlt in Hlt. exact Hlt.
Qed.

(** *** When the scanned range is empty *)

Lemma scan_bounds_lt (cp : Q) :
  2 # 3 <= cp -> (Py.int (cp * (1 # 2)) < Py.int (cp * (3 # 2)))%Z.
Proof.
  intros H.
  rewrite !int_floor by lra.
  set (lo := Qfloor (cp * (1 # 2))).
  assert (Hlo : inject_Z lo <= cp * (1 # 2)) by apply Qfloor_le.
  assert (Hgoal : (lo + 1 <= Qfloor (cp * (3 # 2)))%Z).
  { apply Qfloor_lower. rewrite inject_Z_plus.
    change (inject_Z 1) with 1.
    destruct (Qlt_le_dec cp 1) as [Hc | Hc]; [ | lra ].
    assert (Hl0 : (lo < 1)%Z).
    { apply Qfloor_upper. change (inject_Z 1) with 1. lra. }
    assert (Hq : inject_Z lo <= inject_Z 0) by (rewrite <- Zle_Qle; lia).
    change (inject_Z 0) with 0 in Hq. lra. }
  lia.
Qed.

Lemma scan_bounds_ge (cp : Q) :
  cp < 2 # 3 -> (Py.int (cp * (3 # 2)) <= Py.int (cp * (1 # 2)))%Z.
Proof.
  intros H. destruct (Qlt_le_dec cp 0) as [Hneg | Hpos].
  - rewrite !int_ceiling by lra. apply Qceiling_resp_le. lra.
  - rewrite !int_floor by lra.
    assert (Hhi : (Qfloor (cp * (3 # 2)) < 1)%Z).
    { apply Qfloor_upper. change (inject_Z 1) with 1. lra. }
    assert (Hl : (0 <= Qfloor (cp * (1 # 2)))%Z).
    { apply Qfloor_lower. change (inject_Z 0) with 0. lra. }
    lia.
Qed.

Lemma scan_prices_nil (cp : Q) : scan_prices cp = [] <-> cp < 2 # 3.
Proof.
  unfold scan_prices. rewrite range_nil. split.
  - intros H. destruct (Qlt_le_dec cp (2 # 3)) as [Hc | Hc]; [ exact Hc | ].
    apply scan_bounds_lt in Hc. lia.
  - apply scan_bounds_ge.
Qed.

(* ------------------------------------------------------------------ *)
(** ** The guarded divisions and the rule blocks never raise *)

Lemma Qabs_zero_inv (x : Q) : Qabs x == 0 -> x == 0.
Proof.
  apply Qabs_case; intros H E; lra.
Qed.

Lemma loss_divisor_nonzero (max_loss : Q) : ~ loss_divisor max_loss == 0.
Proof.
  unfold loss_divisor. destruct (Qeq_bool max_loss 0) eqn:E; simpl.
  - lra.
  - intros H. apply Qabs_zero_inv in H. apply Qeq_eq_bool in H. congruence.
Qed.

Lemma loss_percent_of_Ok (current_pnl max_loss : Q) :
  loss_percent_of current_pnl max_loss =
  Ok (Qabs current_pnl / loss_divisor max_loss * 100).
Proof.
  unfold loss_percent_of.
  now rewrite (div_Ok _ _ (loss_divisor_nonzero max_loss)).
Qed.

Lemma profit_percent_of_Ok (current_pnl max_profit : Q) :
  exists v, profit_percent_of current_pnl max_profit = Ok v.
Proof.
  unfold profit_percent_of. destruct (Qgtb max_profit 0) eqn:E.
  - apply Qgtb_true in E. rewrite div_Ok by lra. simpl. eauto.
  - eauto.
Qed.

Lemma max_of_two {A : Type} (f : A -> Q) (l : list A) :
  length l = 2%nat -> exists m, Py.max (map f l) = Ok m.
Proof.
  destruct l as [ | a [ | b [ | c l ] ] ]; simpl; try discriminate.
  intros _. eauto.
Qed.

Lemma min_of_two {A : Type} (f : A -> Q) (l : list A) :
  length l = 2%nat -> exists m, Py.min (map f l) = Ok m.
Proof.
  destruct l as [ | a [ | b [ | c l ] ] ]; simpl; try discriminate.
  intros _. eauto.
Qed.

Lemma loss_rules_Ok (cp pnl ml : Q) (opts : list OptionLeg)
    (recs : list Recommendation) :
  exists l, loss_rules cp pnl ml opts recs = Ok (recs ++ l).
Proof.
  unfold loss_rules. rewrite loss_percent_of_Ok. simpl.
  set (lp := Qabs pnl / loss_divisor ml * 100).
  assert (H1 : exists l1,
    (if Qgtb lp 50 then recs ++ [close_rec lp]
     else if Qgtb lp 25 then recs ++ [roll_rec lp] else recs) = recs ++ l1).
  { destruct (Qgtb lp 50); [ | destruct (Qgtb lp 25) ];
      [ extends_by [close_rec lp] | extends_by [roll_rec lp]
      | extends_by (@nil Recommendation) ]. }
  destruct H1 as [l1 ->].
  assert (H2 : exists l2,
    (if ((length (calls_of opts) =? 2)%nat && (length (puts_of opts) =? 0)%nat)%bool
     then top <- Py.max (map strike (calls_of opts)) ;;
          Ok (if Qgtb cp top
              then (recs ++ l1) ++ [roll_up_rec cp] else recs ++ l1)
     else Ok (recs ++ l1)) = Ok (recs ++ l2)).
  { destruct (length (calls_of opts) =? 2)%nat eqn:Ec; simpl;
      [ | extends_by l1 ].
    destruct (length (puts_of opts) =? 0)%nat; [ | extends_by l1 ].
    apply Nat.eqb_eq in Ec.
    destruct (max_of_two strike _ Ec) as [top ->]. simpl.
    destruct (Qgtb cp top); [ extends_by (l1 ++ [roll_up_rec cp]) | extends_by l1 ]. }
  destruct H2 as [l2 ->]. simpl.
  assert (H3 : exists l3,
    (if ((length (puts_of opts) =? 2)%nat && (length (calls_of opts) =? 0)%nat)%bool
     then low <- Py.min (map strike (puts_of opts)) ;;
          Ok (if Qltb cp low
              then (recs ++ l2) ++ [roll_down_rec cp] else recs ++ l2)
     else Ok (recs ++ l2)) = Ok (recs ++ l3)).
  { destruct (length (puts_of opts) =? 2)%nat eqn:Ep; simpl;
      [ | extends_by l2 ].
    destruct (length (calls_of opts) =? 0)%nat; [ | extends_by l2 ].
    apply Nat.eqb_eq in Ep.
    destruct (min_of_two strike _ Ep) as [low ->]. simpl.
    destruct (Qltb cp low); [ extends_by (l2 ++ [roll_down_rec cp]) | extends_by l2 ]. }
  destruct H3 as [l3 ->]. simpl.
  destruct ((length (calls_of opts) =? 2)%nat && (length (puts_of opts) =? 2)%nat)%bool;
    [ extends_by (l3 ++ [condor_rec]) | extends_by l3 ].
Qed.

Lemma profit_rules_Ok (pnl mp : Q) (recs : list Recommendation) :
  exists l, profit_rules pnl mp recs = Ok (recs ++ l).
Proof.
  unfold profit_rules.
  destruct (profit_percent_of_Ok pnl mp) as [pp ->]. simpl.
  destruct (Qgtb pp 75); [ | destruct (Qgtb pp 50) ];
    [ extends_by [take_profit_rec pp] | extends_by [partial_close_rec pp]
    | extends_by (@nil Recommendation) ].
Qed.

Lemma recommendations_of_Ok (cp pnl mp ml : Q) (opts : list OptionLeg) :
  exists l, recommendations_of cp pnl mp ml opts = Ok (l ++ [info_rec]).
Proof.
  unfold recommendations_of.
  assert (H1 : exists l1,
    (if Qltb pnl 0 then loss_rules cp pnl ml opts [] else Ok []) = Ok l1).
  { destruct (Qltb pnl 0); [ | eauto ].
    destruct (loss_rules_Ok cp pnl ml opts []) as [l ->]. eauto. }
  destruct H1 as [l1 ->]. simpl.
  assert (H2 : exists l2,
    (if Qgtb pnl 0 then profit_rules pnl mp l1 else Ok l1) = Ok l2).
  { destruct (Qgtb pnl 0); [ | eauto ].
    destruct (profit_rules_Ok pnl mp l1) as [l ->]. eauto. }
  destruct H2 as [l2 ->]. simpl. eauto.
Qed.

(** The endpoint returns exactly when the scanned range is not empty, and
    then its fields are the values computed on the way. *)
Lemma analyze_Ok_inv (scenario : AdjustmentScenario) (r : ScenarioResult) :
  analyze_adjustment_scenarios scenario = Ok r ->
  exists max_profit max_loss recs,
    Py.max (scan_payoffs (current_price scenario) (options scenario)) = Ok max_profit /\
    Py.min (scan_payoffs (current_price scenario) (options scenario)) = Ok max_loss /\
    recommendations_of (current_price scenario)
      (calculate_payoff (current_price scenario) (options scenario))
      max_profit max_loss (options scenario) = Ok recs /\
    r = {| r_current_price := current_price scenario;
           r_scenario_price := scenario_price_of scenario;
           r_current_pnl :=
             Py.round2 (calculate_payoff (current_price scenario) (options scenario));
           r_scenario_pnl :=
             Py.round2 (calculate_payoff (scenario_price_of scenario) (options scenario));
           r_pnl_change :=
             Py.round2 (calculate_payoff (scenario_price_of scenario) (options scenario)
                        - calculate_payoff (current_price scenario) (options scenario));
           r_max_profit := Py.round2 max_profit;
           r_max_loss := Py.round2 max_loss;
           r_recommendations := recs |}.
Proof.
  unfold analyze_adjustment_scenarios. intros H.
  apply bind_Ok_inv in H. destruct H as (mp & Hmp & H).
  apply bind_Ok_inv in H. destruct H as (ml & Hml & H).
  apply bind_Ok_inv in H. destruct H as (recs & Hrecs & H).
  exists mp, ml, recs. repeat split; try assumption. congruence.
Qed.

Lemma scan_payoffs_nil (cp : Q) (opts : list OptionLeg) :
  scan_payoffs cp opts = [] <-> cp < 2 # 3.
Proof.
  rewrite <- scan_prices_nil. unfold scan_payoffs. split.
  - apply map_eq_nil.
  - now intros ->.
Qed.

Lemma analyze_Ok (scenario : AdjustmentScenario) :
  2 # 3 <= current_price scenario ->
  exists r, analyze_adjustment_scenarios scenario = Ok r.
Proof.
  intros H. unfold analyze_adjustment_scenarios.
  assert (Hne : scan_payoffs (current_price scenario) (options scenario) <> []).
  { rewrite scan_payoffs_nil. lra. }
  destruct (max_Ok _ Hne) as (mp & -> & _).
  destruct (min_Ok _ Hne) as (ml & -> & _). simpl.
  destruct (recommendations_of_Ok (current_price scenario)
              (calculate_payoff (current_price scenario) (options scenario))
              mp ml (options scenario)) as [l ->].
  simpl. eauto.
Qed.

Lemma analyze_Raise (scenario : AdjustmentScenario) :
  current_price scenario < 2 # 3 ->
  analyze_adjustment_scenarios scenario = Raise ValueError.
Proof.
  intros H. unfold analyze_adjustment_scenarios.
  apply (scan_payoffs_nil _ (options scenario)) in H. now rewrite H.
Qed.

Lemma analyze_returns_or_value_error (scenario : AdjustmentScenario) :
  (exists r, analyze_adjustment_scenarios scenario = Ok r) \/
  analyze_adjustment_scenarios scenario = Raise ValueError.
Proof.
  destruct (Qlt_le_dec (current_price scenario) (2 # 3)) as [Hlow | Hhigh].
  - right. now apply analyze_Raise.
  - left. now apply analyze_Ok.
Qed.

(* ------------------------------------------------------------------ *)
(** ** The payoff as a sum over the legs *)

Lemma payoff_step_leg_pnl (price total : Q) (opt : OptionLeg) :
  payoff_step price total opt = total + leg_pnl price opt.
Proof.
  unfold payoff_step, leg_pnl. now destruct (action opt =? "buy")%string.
Qed.

Lemma fold_payoff_step (price : Q) (opts : list OptionLeg) (total : Q) :
  fold_left (payoff_step price) opts total ==
  total + sumQ (map (leg_pnl price) opts).
Proof.
  revert total. induction opts as [ | opt opts IH]; intros total; simpl.
  - ring.
  - rewrite IH, payoff_step_leg_pnl. ring.
Qed.

Lemma calculate_payoff_sum (price : Q) (opts : list OptionLeg) :
  calculate_payoff price opts == sumQ (map (leg_pnl price) opts).
Proof.
  unfold calculate_payoff. rewrite fold_payoff_step. ring.
Qed.

Lemma leg_pnl_spec (price : Q) (opt : OptionLeg) :
  Spec.is_leg opt -> leg_pnl price opt = Spec.leg_payoff price opt.
Proof.
  unfold Spec.is_leg, Spec.leg_payoff, Spec.kind_of, Spec.side_of, leg_pnl.
  intros [Hk Hs].
  destruct (type opt =? "call")%string eqn:Ec;
    destruct (action opt =? "buy")%string eqn:Eb; simpl.
  - reflexivity.
  - destruct (action opt =? "sell")%string; [ reflexivity | congruence ].
  - destruct (type opt =? "put")%string; [ reflexivity | congruence ].
  - destruct (type opt =? "put")%string; [ | congruence ].
    destruct (action opt =? "sell")%string; [ reflexivity | congruence ].
Qed.

(** C1. At every price, the payoff the evaluator returns for a list of legs
    (each a call or a put, bought or sold) is the sum over the legs of
    [(intrinsic - premium) * quantity * 100] for a bought leg and
    [(premium - intrinsic) * quantity * 100] for a sold one, with the
    intrinsic value [max(0, price - strike)] of a call and
    [max(0, strike - price)] of a put; the payoff of no legs is [0]. *)
Theorem calculate_payoff_is_sum_over_legs (price : Q) (legs : list OptionLeg) :
  Forall Spec.is_leg legs ->
  calculate_payoff price legs == Spec.payoff price legs /\
  calculate_payoff price [] = 0.
Proof.
  intros Hlegs. split; [ | reflexivity ].
  rewrite calculate_payoff_sum. unfold Spec.payoff.
  induction Hlegs as [ | opt legs Hopt _ IH]; simpl.
  - reflexivity.
  - rewrite IH, (leg_pnl_spec price opt Hopt). reflexivity.
Qed.

Lemma calculate_payoff_is_sum_over_legs_witness :
  Forall Spec.is_leg (options aapl_request) /\
  calculate_payoff (371 # 2) (options aapl_request)
    == Spec.payoff (371 # 2) (options aapl_request) /\
  calculate_payoff (371 # 2) [] = 0.
Proof.
  assert (H : Forall Spec.is_leg (options aapl_request)).
  { repeat constructor; discriminate. }
  split; [ exact H | ].
  exact (calculate_payoff_is_sum_over_legs (371 # 2) (options aapl_request) H).
Defined.

(* ------------------------------------------------------------------ *)
(** ** Rounding is monotone, and the payoff respects equal prices *)

Lemma round_half_even_bounds (x : Q) :
  (Qfloor x <= Py.round_half_even x <= Qfloor x + 1)%Z.
Proof.
  unfold Py.round_half_even.
  destruct (Qcompare _ _); [ destruct (Z.even _) | | ]; lia.
Qed.

Lemma round_half_even_mono (x y : Q) :
  x <= y -> (Py.round_half_even x <= Py.round_half_even y)%Z.
Proof.
  intros Hxy.
  pose proof (Qfloor_resp_le _ _ Hxy) as Hf.
  destruct (Z.eq_dec (Qfloor x) (Qfloor y)) as [E | NE].
  - unfold Py.round_half_even. rewrite <- E.
    destruct (Qcompare_spec (x - inject_Z (Qfloor x)) (1 # 2)) as [Hx | Hx | Hx];
      destruct (Qcompare_spec (y - inject_Z (Qfloor x)) (1 # 2)) as [Hy | Hy | Hy];
      try destruct (Z.even (Qfloor x)); try lia; exfalso; lra.
  - pose proof (round_half_even_bounds x). pose proof (round_half_even_bounds y). lia.
Qed.

Lemma round2_mono (x y : Q) : x <= y -> Py.round2 x <= Py.round2 y.
Proof.
  intros Hxy. unfold Py.round2.
  assert (H : (Py.round_half_even (x * 100) <= Py.round_half_even (y * 100))%Z)
    by (apply round_half_even_mono; lra).
  rewrite Zle_Qle in H.
  apply Qmult_le_compat_r; [ exact H | ].
  apply Qlt_le_weak, Qinv_lt_0_compat. reflexivity.
Qed.


Lemma leg_pnl_price_eq (p q : Q) (opt : OptionLeg) :
  p == q -> leg_pnl p opt == leg_pnl q opt.
Proof.
  intros E. unfold leg_pnl.
  assert (Hc : Qmax 0 (p - strike opt) == Qmax 0 (q - strike opt))
    by (apply Q.max_compat; [ reflexivity | lra ]).
  assert (Hp : Qmax 0 (strike opt - p) == Qmax 0 (strike opt - q))
    by (apply Q.max_compat; [ reflexivity | lra ]).
  destruct (type opt =? "call")%string; destruct (action opt =? "buy")%string;
    rewrite ?Hc, ?Hp; reflexivity.
Qed.

Lemma calculate_payoff_price_eq (p q : Q) (opts : list OptionLeg) :
  p == q -> calculate_payoff p opts == calculate_payoff q opts.
Proof.
  intros E. rewrite !calculate_payoff_sum.
  induction opts as [ | opt opts IH]; simpl; [ reflexivity | ].
  rewrite IH, (leg_pnl_price_eq p q opt E). reflexivity.
Qed.

(** The extremes of a successful scan are payoffs at scanned prices. *)
Lemma In_scan_payoffs (cp : Q) (opts : list OptionLeg) (v : Q) :
  In v (scan_payoffs cp opts) <->
  exists p, In p (scan_prices cp) /\ v = calculate_payoff (inject_Z p) opts.
Proof.
  unfold scan_payoffs. rewrite in_map_iff. split.
  - intros (p & <- & Hp). eauto.
  - intros (p & Hp & ->). eauto.
Qed.

Lemma max_Ok_inv (l : list Q) (m : Q) :
  Py.max l = Ok m -> In m l /\ forall y, In y l -> y <= m.
Proof.
  destruct l as [ | x xs]; simpl; intros H; [ discriminate | ].
  injection H as <-. apply fold_Qmax_spec.
Qed.

Lemma min_Ok_inv (l : list Q) (m : Q) :
  Py.min l = Ok m -> In m l /\ forall y, In y l -> m <= y.
Proof.
  destruct l as [ | x xs]; simpl; intros H; [ discriminate | ].
  injection H as <-. apply fold_Qmin_spec.
Qed.

(* ------------------------------------------------------------------ *)
(** ** When the endpoint returns and when it raises *)






(* ------------------------------------------------------------------ *)
(** ** The extremum scan *)

(** C4, as stated, fails: the price 100.5 lies between the ends of the
    scanned range [range(50, 150)], yet the reported [max_profit] (150, the
    best payoff on the integer grid) is below the reported [current_pnl]
    (200, the payoff at the strike). *)
Lemma current_pnl_can_exceed_max_profit :
  scan_prices (current_price straddle_request) = Py.range 50 150 /\
  inject_Z 50 <= current_price straddle_request < inject_Z 150 /\
  exists r, analyze_adjustment_scenarios straddle_request = Ok r /\
            r_max_profit r == 150 /\ r_current_pnl r == 200 /\
            r_max_profit r < r_current_pnl r.
Proof.
  split; [ reflexivity | ].
  split; [ split; [ discriminate | reflexivity ] | ].
  eexists. split; [ vm_compute; reflexivity | ].
  repeat split.
Qed.

(** C4, amended. When the current price is itself one of the scanned
    integer prices, the returned result satisfies
    [max_loss <= current_pnl <= max_profit]. *)
Theorem extremes_bracket_current_pnl
    (scenario : AdjustmentScenario) (r : ScenarioResult) (n : Z) :
  current_price scenario == inject_Z n ->
  In n (scan_prices (current_price scenario)) ->
  analyze_adjustment_scenarios scenario = Ok r ->
  r_max_loss r <= r_current_pnl r /\ r_current_pnl r <= r_max_profit r.
Proof.
  intros Hcp Hn Hr. apply analyze_Ok_inv in Hr.
  destruct Hr as (mp & ml & recs & Hmp & Hml & _ & ->). simpl.
  apply max_Ok_inv in Hmp. apply min_Ok_inv in Hml.
  assert (Hin : In (calculate_payoff (inject_Z n) (options scenario))
                   (scan_payoffs (current_price scenario) (options scenario))).
  { apply In_scan_payoffs. eauto. }
  pose proof (calculate_payoff_price_eq _ _ (options scenario) Hcp) as E.
  split; apply round2_mono; rewrite E.
  - now apply Hml.
  - now apply Hmp.
Qed.

Lemma extremes_bracket_current_pnl_witness :
  exists r, analyze_adjustment_scenarios unknown_kind_request = Ok r /\
            r_max_loss r <= r_current_pnl r /\ r_current_pnl r <= r_max_profit r.
Proof.
  eexists. split; [ vm_compute; reflexivity | ].
  apply (extremes_bracket_current_pnl unknown_kind_request _ 100).
  - reflexivity.
  - apply range_In. vm_compute. split; [ discriminate | reflexivity ].
  - vm_compute; reflexivity.
Defined.




(* ------------------------------------------------------------------ *)
(** ** The recommendation rules *)

Lemma loss_percent_recs_not_adjust (lp : Q) :
  Forall (fun x => rec_type x <> "adjust"%string) (loss_percent_recs lp).
Proof.
  unfold loss_percent_recs.
  destruct (Qgtb lp 50); [ | destruct (Qgtb lp 25) ];
    repeat constructor; discriminate.
Qed.

Lemma Qgtb_neg_0 (x : Q) : x < 0 -> Qgtb x 0 = false.
Proof.
  intros H. apply Qgtb_false. lra.
Qed.

Lemma call_spread_recs (cp pnl mp ml top : Q) (opts : list OptionLeg) :
  pnl < 0 ->
  length (calls_of opts) = 2%nat -> length (puts_of opts) = 0%nat ->
  Py.max (map strike (calls_of opts)) = Ok top -> top < cp ->
  recommendations_of cp pnl mp ml opts =
  Ok (loss_percent_recs (Qabs pnl / loss_divisor ml * 100)
      ++ [roll_up_rec cp; info_rec]).
Proof.
  intros Hpnl Hc Hp Hmax Htop.
  unfold recommendations_of, loss_rules, loss_percent_recs.
  rewrite (proj2 (Qltb_true pnl 0) Hpnl), (Qgtb_neg_0 pnl Hpnl).
  rewrite loss_percent_of_Ok, Hc, Hp, Hmax. simpl.
  rewrite (proj2 (Qgtb_true cp top) Htop).
  destruct (Qgtb _ 50); [ | destruct (Qgtb _ 25) ]; reflexivity.
Qed.

Lemma put_spread_recs (cp pnl mp ml low : Q) (opts : list OptionLeg) :
  pnl < 0 ->
  length (puts_of opts) = 2%nat -> length (calls_of opts) = 0%nat ->
  Py.min (map strike (puts_of opts)) = Ok low -> cp < low ->
  recommendations_of cp pnl mp ml opts =
  Ok (loss_percent_recs (Qabs pnl / loss_divisor ml * 100)
      ++ [roll_down_rec cp; info_rec]).
Proof.
  intros Hpnl Hp Hc Hmin Hlow.
  unfold recommendations_of, loss_rules, loss_percent_recs.
  rewrite (proj2 (Qltb_true pnl 0) Hpnl), (Qgtb_neg_0 pnl Hpnl).
  rewrite loss_percent_of_Ok, Hc, Hp, Hmin. simpl.
  rewrite (proj2 (Qltb_true cp low) Hlow).
  destruct (Qgtb _ 50); [ | destruct (Qgtb _ 25) ]; reflexivity.
Qed.

(** C6, as stated, fails: on the request of the repository's own test
    (price 185.5 above the 180/185 call spread, P&L -370) the rule fires and
    suggests 185/190, the truncated price, where [round] gives 186/191; on a
    put spread with the price at 94.75 it suggests 89/94, not 90/95. *)
Lemma spread_rules_do_not_round :
  (calculate_payoff (current_price aapl_request) (options aapl_request) < 0 /\
   length (calls_of (options aapl_request)) = 2%nat /\
   length (puts_of (options aapl_request)) = 0%nat /\
   Py.max (map strike (calls_of (options aapl_request))) = Ok 185 /\
   185 < current_price aapl_request /\
   exists r, analyze_adjustment_scenarios aapl_request = Ok r /\
     map rec_action (r_recommendations r) =
       [ "Close entire position";
         "Roll to higher strikes: 185/190";
         "Monitor theta and consider rolling if holding through expiration" ]%string /\
     Spec.roll_up_action (current_price aapl_request) =
       "Roll to higher strikes: 186/191"%string) /\
  (calculate_payoff (current_price put_spread_request) (options put_spread_request) < 0 /\
   length (puts_of (options put_spread_request)) = 2%nat /\
   length (calls_of (options put_spread_request)) = 0%nat /\
   Py.min (map strike (puts_of (options put_spread_request))) = Ok 100 /\
   current_price put_spread_request < 100 /\
   exists r, analyze_adjustment_scenarios put_spread_request = Ok r /\
     map rec_action (r_recommendations r) =
       [ "Close entire position";
         "Roll to lower strikes: 89/94";
         "Monitor theta and consider rolling if holding through expiration" ]%string /\
     Spec.roll_down_action (current_price put_spread_request) =
       "Roll to lower strikes: 90/95"%string).
Proof.
  split.
  - do 5 (split; [ reflexivity | ]).
    eexists. split; [ vm_compute; reflexivity | ].
    split; reflexivity.
  - do 5 (split; [ reflexivity | ]).
    eexists. split; [ vm_compute; reflexivity | ].
    split; reflexivity.
Qed.

(** C6, amended. Whenever the call-spread rule fires (negative current P&L,
    exactly two call legs, no put leg, price above the higher call strike),
    the one [adjust] recommendation of the result suggests the strikes
    [int(p)] and [int(p) + 5], the price truncated toward zero; whenever the
    put-spread rule fires, it suggests [int(p) - 5] and [int(p)]. *)
Theorem spread_rules_suggest_truncated_strikes
    (scenario : AdjustmentScenario) (r : ScenarioResult) :
  analyze_adjustment_scenarios scenario = Ok r ->
  calculate_payoff (current_price scenario) (options scenario) < 0 ->
  let cp := current_price scenario in
  let calls := calls_of (options scenario) in
  let puts := puts_of (options scenario) in
  (forall top,
     length calls = 2%nat -> length puts = 0%nat ->
     Py.max (map strike calls) = Ok top -> top < cp ->
     exists l,
       r_recommendations r = l ++ [roll_up_rec cp; info_rec] /\
       Forall (fun x => rec_type x <> "adjust"%string) l /\
       rec_type (roll_up_rec cp) = "adjust"%string /\
       rec_action (roll_up_rec cp) =
         ("Roll to higher strikes: " ++ Py.str (Py.int cp) ++
          "/" ++ Py.str (Py.int cp + 5))%string) /\
  (forall low,
     length puts = 2%nat -> length calls = 0%nat ->
     Py.min (map strike puts) = Ok low -> cp < low ->
     exists l,
       r_recommendations r = l ++ [roll_down_rec cp; info_rec] /\
       Forall (fun x => rec_type x <> "adjust"%string) l /\
       rec_type (roll_down_rec cp) = "adjust"%string /\
       rec_action (roll_down_rec cp) =
         ("Roll to lower strikes: " ++ Py.str (Py.int cp - 5) ++
          "/" ++ Py.str (Py.int cp))%string).
Proof.
  intros Hr Hpnl cp calls puts. subst cp calls puts.
  apply analyze_Ok_inv in Hr.
  destruct Hr as (mp & ml & recs & _ & _ & Hrecs & ->). simpl.
  split.
  - intros top Hc Hp Hmax Htop.
    rewrite (call_spread_recs _ _ mp ml top _ Hpnl Hc Hp Hmax Htop) in Hrecs.
    injection Hrecs as <-.
    eexists. split; [ reflexivity | ].
    split; [ apply loss_percent_recs_not_adjust | split; reflexivity ].
  - intros low Hp Hc Hmin Hlow.
    rewrite (put_spread_recs _ _ mp ml low _ Hpnl Hp Hc Hmin Hlow) in Hrecs.
    injection Hrecs as <-.
    eexists. split; [ reflexivity | ].
    split; [ apply loss_percent_recs_not_adjust | split; reflexivity ].
Qed.

Lemma spread_rules_suggest_truncated_strikes_witness :
  (exists r l,
     analyze_adjustment_scenarios aapl_request = Ok r /\
     r_recommendations r = l ++ [roll_up_rec (current_price aapl_request); info_rec] /\
     rec_action (roll_up_rec (current_price aapl_request)) =
       "Roll to higher strikes: 185/190"%string) /\
  (exists r l,
     analyze_adjustment_scenarios put_spread_request = Ok r /\
     r_recommendations r =
       l ++ [roll_down_rec (current_price put_spread_request); info_rec] /\
     rec_action (roll_down_rec (current_price put_spread_request)) =
       "Roll to lower strikes: 89/94"%string).
Proof.
  split.
  - assert (Hcp : 2 # 3 <= current_price aapl_request) by discriminate.
    destruct (analyze_Ok aapl_request Hcp) as [r Hr].
    assert (Hpnl : calculate_payoff (current_price aapl_request)
                     (options aapl_request) < 0) by reflexivity.
    destruct (proj1 (spread_rules_suggest_truncated_strikes aapl_request r Hr Hpnl)
                185 eq_refl eq_refl eq_refl eq_refl) as (l & Hl & _).
    exists r, l. split; [ exact Hr | split; [ exact Hl | reflexivity ] ].
  - assert (Hcp : 2 # 3 <= current_price put_spread_request) by discriminate.
    destruct (analyze_Ok put_spread_request Hcp) as [r Hr].
    assert (Hpnl : calculate_payoff (current_price put_spread_request)
                     (options put_spread_request) < 0) by reflexivity.
    destruct (proj2 (spread_rules_suggest_truncated_strikes put_spread_request r Hr Hpnl)
                100 eq_refl eq_refl eq_refl eq_refl) as (l & Hl & _).
    exists r, l. split; [ exact Hr | split; [ exact Hl | reflexivity ] ].
Defined.

(** C7. Whenever the endpoint returns a result, its recommendation list is
    not empty and ends with the [info]/[low] time-decay reminder, whatever
    the sign of the current P&L and whichever other rules fired. *)
Theorem info_reminder_is_always_last
    (scenario : AdjustmentScenario) (r : ScenarioResult) :
  analyze_adjustment_scenarios scenario = Ok r ->
  r_recommendations r <> [] /\
  (exists l, r_recommendations r = l ++ [info_rec]) /\
  (forall d, last (r_recommendations r) d = info_rec) /\
  rec_type info_rec = "info"%string /\ rec_urgency info_rec = "low"%string.
Proof.
  intros Hr. apply analyze_Ok_inv in Hr.
  destruct Hr as (mp & ml & recs & _ & _ & Hrecs & ->). simpl.
  destruct (recommendations_of_Ok (current_price scenario)
              (calculate_payoff (current_price scenario) (options scenario))
              mp ml (options scenario)) as [l Hl].
  rewrite Hl in Hrecs. injection Hrecs as <-.
  split; [ | split; [ | split ] ].
  - intros E. apply app_eq_nil in E. destruct E as [_ E]. discriminate.
  - now exists l.
  - intros d. apply last_last.
  - split; reflexivity.
Qed.

Lemma info_reminder_is_always_last_witness :
  exists r, analyze_adjustment_scenarios aapl_request = Ok r /\
            r_recommendations r <> [] /\
            forall d, last (r_recommendations r) d = info_rec.
Proof.
  assert (Hcp : 2 # 3 <= current_price aapl_request) by discriminate.
  destruct (analyze_Ok aapl_request Hcp) as [r Hr].
  destruct (info_reminder_is_always_last aapl_request r Hr) as (Hne & _ & Hlast & _).
  exists r. split; [ exact Hr | split; [ exact Hne | exact Hlast ] ].
Defined.

(** C8. The loss-percent division never faults: its divisor is 1 when
    [max_loss] is 0 and [|max_loss|] otherwise, never 0, so the computation
    returns; the value is [|current_pnl| / |max_loss|] expressed in percent
    (times 100), the unit of the thresholds 50 and 25 it is compared with.
    No run of the endpoint ends in a division fault. *)
Theorem loss_percent_never_faults (current_pnl max_loss : Q) :
  ~ loss_divisor max_loss == 0 /\
  (max_loss == 0 -> loss_divisor max_loss = 1) /\
  (~ max_loss == 0 -> loss_divisor max_loss = Qabs max_loss) /\
  (exists lp,
     loss_percent_of current_pnl max_loss = Ok lp /\
     (max_loss == 0 -> lp == Qabs current_pnl / 1 * 100) /\
     (~ max_loss == 0 ->
      lp == Qabs current_pnl / Qabs max_loss * 100 /\
      (50 < lp <-> 50 # 100 < Qabs current_pnl / Qabs max_loss) /\
      (25 < lp <-> 25 # 100 < Qabs current_pnl / Qabs max_loss))) /\
  (forall scenario,
     analyze_adjustment_scenarios scenario <> Raise ZeroDivisionError).
Proof.
  assert (H0 : max_loss == 0 -> loss_divisor max_loss = 1).
  { intros E. unfold loss_divisor. now rewrite (Qeq_eq_bool _ _ E). }
  assert (H1 : ~ max_loss == 0 -> loss_divisor max_loss = Qabs max_loss).
  { intros NE. unfold loss_divisor.
    destruct (Qeq_bool max_loss 0) eqn:E; [ | reflexivity ].
    apply Qeq_bool_eq in E. contradiction. }
  split; [ apply loss_divisor_nonzero | ].
  split; [ exact H0 | ]. split; [ exact H1 | ]. split.
  - exists (Qabs current_pnl / loss_divisor max_loss * 100).
    split; [ apply loss_percent_of_Ok | ]. split.
    + intros E. rewrite (H0 E). reflexivity.
    + intros NE. rewrite (H1 NE).
      split; [ reflexivity | ]. split; split; lra.
  - intros scenario HR.
    destruct (analyze_returns_or_value_error scenario) as [[r Hr] | Hv]; congruence.
Qed.

(* ------------------------------------------------------------------ *)
(** ** The scenario transform at a zero magnitude *)

(** C9. With [scenario_value] supplied as 0.0, a [price_up] scenario prices
    at [current_price * 1.1] and a [price_down] scenario at
    [current_price * 0.9]: the zero is falsy, so [or] replaces it by the
    default 0.1 exactly as it replaces an absent value, and the result
    carries that scenario price. *)
Theorem zero_scenario_value_uses_default (scenario : AdjustmentScenario) (v : Q) :
  scenario_value scenario = Some v -> v == 0 ->
  (scenario_type scenario = "price_up"%string ->
   scenario_price_of scenario == current_price scenario * (11 # 10)) /\
  (scenario_type scenario = "price_down"%string ->
   scenario_price_of scenario == current_price scenario * (9 # 10)) /\
  scenario_price_of scenario = scenario_price_of (with_scenario_value scenario None) /\
  (forall r, analyze_adjustment_scenarios scenario = Ok r ->
             r_scenario_price r = scenario_price_of scenario).
Proof.
  intros Hv Hz.
  assert (Hor : Py.or_default (scenario_value scenario) (1 # 10) = 1 # 10).
  { rewrite Hv. simpl. now rewrite (Qeq_eq_bool _ _ Hz). }
  split; [ | split; [ | split ] ].
  - intros Hup. unfold scenario_price_of. rewrite Hup, Hor. simpl. ring.
  - intros Hdown. unfold scenario_price_of. rewrite Hdown, Hor. simpl. ring.
  - unfold scenario_price_of. rewrite Hor. reflexivity.
  - intros r Hr. apply analyze_Ok_inv in Hr.
    destruct Hr as (mp & ml & recs & _ & _ & _ & ->). reflexivity.
Qed.

Lemma zero_scenario_value_uses_default_witness :
  scenario_value zero_move_request = Some 0 /\
  scenario_type zero_move_request = "price_up"%string /\
  scenario_price_of zero_move_request == 110.
Proof.
  split; [ reflexivity | ]. split; [ reflexivity | ].
  rewrite (proj1 (zero_scenario_value_uses_default zero_move_request 0
                    eq_refl (Qeq_refl 0)) eq_refl).
  reflexivity.
Defined.

(** C10. When the current P&L is exactly 0, the recommendation list of the
    result is the single [info]/[low] time-decay reminder: the loss rules and
    the leg-shape rules need a strictly negative P&L, the profit rules a
    strictly positive one. *)
Theorem zero_pnl_gives_only_info
    (scenario : AdjustmentScenario) (r : ScenarioResult) :
  analyze_adjustment_scenarios scenario = Ok r ->
  calculate_payoff (current_price scenario) (options scenario) == 0 ->
  r_recommendations r = [info_rec].
Proof.
  intros Hr Hz. apply analyze_Ok_inv in Hr.
  destruct Hr as (mp & ml & recs & _ & _ & Hrecs & ->). simpl.
  unfold recommendations_of in Hrecs.
  rewrite (proj2 (Qltb_false _ 0)) in Hrecs by lra.
  rewrite (proj2 (Qgtb_false _ 0)) in Hrecs by lra.
  simpl in Hrecs. congruence.
Qed.

Lemma zero_pnl_gives_only_info_witness :
  calculate_payoff (current_price break_even_request)
    (options break_even_request) == 0 /\
  exists r, analyze_adjustment_scenarios break_even_request = Ok r /\
            r_recommendations r = [info_rec].
Proof.
  split; [ reflexivity | ].
  assert (Hcp : 2 # 3 <= current_price break_even_request) by discriminate.
  destruct (analyze_Ok break_even_request Hcp) as [r Hr].
  exists r. split; [ exact Hr | ].
  apply (zero_pnl_gives_only_info break_even_request r Hr). reflexivity.
Defined.

(* ------------------------------------------------------------------ *)
(** ** Further properties of the payoff evaluator *)



Lemma sumQ_le {A : Type} (f g : A -> Q) (l : list A) :
  Forall (fun a => f a <= g a) l -> sumQ (map f l) <= sumQ (map g l).
Proof.
  induction 1 as [ | a l Ha _ IH]; simpl; [ apply Qle_refl | lra ].
Qed.

Lemma sumQ_opp {A : Type} (f : A -> Q) (l : list A) :
  sumQ (map (fun a => - f a) l) == - sumQ (map f l).
Proof.
  induction l as [ | a l IH]; simpl; [ ring | rewrite IH; ring ].
Qed.

Lemma Qmax0_nonneg (x : Q) : 0 <= Qmax 0 x.
Proof. apply Q.le_max_l. Qed.

Lemma Qmax0_mono (x y : Q) : x <= y -> Qmax 0 x <= Qmax 0 y.
Proof.
  intros H. apply Q.max_le_compat; [ apply Qle_refl | exact H ].
Qed.

Lemma inject_Z_nonneg (n : Z) : (0 <= n)%Z -> 0 <= inject_Z n.
Proof.
  intros H. change 0 with (inject_Z 0). now rewrite <- Zle_Qle.
Qed.




Lemma leg_pnl_flip (price : Q) (opt : OptionLeg) :
  leg_pnl price (flip_leg opt) == - leg_pnl price opt.
Proof.
  unfold leg_pnl, flip_leg. simpl.
  destruct (action opt =? "buy")%string; simpl; ring.
Qed.

(** X3. The counterparty's payoff is the opposite: exchanging bought and
    sold on every leg negates the payoff at every price. *)
Theorem calculate_payoff_flip (price : Q) (opts : list OptionLeg) :
  calculate_payoff price (map flip_leg opts) == - calculate_payoff price opts.
Proof.
  rewrite !calculate_payoff_sum, map_map, <- sumQ_opp.
  induction opts as [ | opt opts IH]; simpl; [ reflexivity | ].
  rewrite IH, leg_pnl_flip. reflexivity.
Qed.

Lemma leg_pnl_bought_lower (price : Q) (opt : OptionLeg) :
  bought opt -> (0 <= quantity opt)%Z ->
  - (premium opt * inject_Z (quantity opt) * 100) <= leg_pnl price opt.
Proof.
  unfold bought, leg_pnl. intros -> Hq. simpl.
  apply inject_Z_nonneg in Hq.
  set (i := if (type opt =? "call")%string
            then Qmax 0 (price - strike opt) else Qmax 0 (strike opt - price)).
  assert (Hi : 0 <= i) by (subst i; destruct (type opt =? "call")%string;
                           apply Qmax0_nonneg).
  pose proof (Qmult_le_0_compat _ _ Hi Hq). lra.
Qed.

Lemma leg_pnl_sold_upper (price : Q) (opt : OptionLeg) :
  sold opt -> (0 <= quantity opt)%Z ->
  leg_pnl price opt <= premium opt * inject_Z (quantity opt) * 100.
Proof.
  unfold sold, leg_pnl. intros Hs Hq. apply String.eqb_neq in Hs. rewrite Hs.
  apply inject_Z_nonneg in Hq.
  set (i := if (type opt =? "call")%string
            then Qmax 0 (price - strike opt) else Qmax 0 (strike opt - price)).
  assert (Hi : 0 <= i) by (subst i; destruct (type opt =? "call")%string;
                           apply Qmax0_nonneg).
  pose proof (Qmult_le_0_compat _ _ Hi Hq). lra.
Qed.

(** X4. A position made of bought legs only (non-negative quantities) never
    loses more than the premium paid, at any price. *)
Theorem bought_legs_lose_at_most_premium (price : Q) (opts : list OptionLeg) :
  Forall (fun o => bought o /\ (0 <= quantity o)%Z) opts ->
  - total_premium opts <= calculate_payoff price opts.
Proof.
  intros H. rewrite calculate_payoff_sum. unfold total_premium.
  rewrite <- sumQ_opp. apply sumQ_le.
  eapply Forall_impl; [ | exact H ].
  intros o [Hb Hq]. now apply leg_pnl_bought_lower.
Qed.

Lemma bought_legs_lose_at_most_premium_witness :
  - total_premium (options break_even_request)
  <= calculate_payoff 3 (options break_even_request).
Proof.
  apply bought_legs_lose_at_most_premium.
  repeat constructor. discriminate.
Defined.

(** X5. A position made of sold legs only (non-negative quantities) never
    gains more than the premium received, at any price. *)
Theorem sold_legs_gain_at_most_premium (price : Q) (opts : list OptionLeg) :
  Forall (fun o => sold o /\ (0 <= quantity o)%Z) opts ->
  calculate_payoff price opts <= total_premium opts.
Proof.
  intros H. rewrite calculate_payoff_sum. unfold total_premium.
  apply sumQ_le.
  eapply Forall_impl; [ | exact H ].
  intros o [Hb Hq]. now apply leg_pnl_sold_upper.
Qed.

Lemma sold_legs_gain_at_most_premium_witness :
  calculate_payoff 500 (options straddle_request)
  <= total_premium (options straddle_request).
Proof.
  apply sold_legs_gain_at_most_premium.
  repeat constructor; discriminate.
Defined.

Lemma leg_pnl_bullish_mono (p q : Q) (opt : OptionLeg) :
  bullish opt -> (0 <= quantity opt)%Z -> p <= q ->
  leg_pnl p opt <= leg_pnl q opt.
Proof.
  unfold bullish, leg_pnl. intros Hb Hq Hpq.
  apply inject_Z_nonneg in Hq.
  destruct Hb as [[-> ->] | [Ht Ha]].
  - simpl.
    pose proof (Qmax0_mono (p - strike opt) (q - strike opt)) as Hm.
    assert (Hd : 0 <= Qmax 0 (q - strike opt) - Qmax 0 (p - strike opt))
      by (assert (p - strike opt <= q - strike opt) by lra; specialize (Hm H); lra).
    pose proof (Qmult_le_0_compat _ _ Hd Hq). lra.
  - apply String.eqb_neq in Ht, Ha. rewrite Ht, Ha.
    pose proof (Qmax0_mono (strike opt - q) (strike opt - p)) as Hm.
    assert (Hd : 0 <= Qmax 0 (strike opt - p) - Qmax 0 (strike opt - q))
      by (assert (strike opt - q <= strike opt - p) by lra; specialize (Hm H); lra).
    pose proof (Qmult_le_0_compat _ _ Hd Hq). lra.
Qed.

Lemma bullish_payoff_monotone_aux (p q : Q) (opts : list OptionLeg) :
  Forall (fun o => bullish o /\ (0 <= quantity o)%Z) opts ->
  p <= q ->
  calculate_payoff p opts <= calculate_payoff q opts.
Proof.
  intros H Hpq. rewrite !calculate_payoff_sum. apply sumQ_le.
  eapply Forall_impl; [ | exact H ].
  intros o [Hb Hq]. now apply leg_pnl_bullish_mono.
Qed.

(** X6. A position made of bought calls and sold puts (non-negative
    quantities) has a payoff that never decreases when the price rises. *)
Theorem bullish_payoff_monotone (p q : Q) (opts : list OptionLeg) :
  Forall (fun o => bullish o /\ (0 <= quantity o)%Z) opts ->
  p <= q ->
  calculate_payoff p opts <= calculate_payoff q opts.
Proof.
  exact (bullish_payoff_monotone_aux p q opts).
Qed.

Lemma bullish_payoff_monotone_witness :
  calculate_payoff 90 (options break_even_request)
  <= calculate_payoff 120 (options break_even_request).
Proof.
  apply bullish_payoff_monotone.
  - repeat constructor; discriminate.
  - discriminate.
Defined.

(* ------------------------------------------------------------------ *)
(** ** Further properties of the scan and of the result's extremes *)

Lemma range_length (lo hi : Z) : length (Py.range lo hi) = Z.to_nat (hi - lo).
Proof.
  unfold Py.range. now rewrite length_map, length_seq.
Qed.








(** X9. In every result [max_loss <= max_profit]. *)
Theorem max_loss_le_max_profit (scenario : AdjustmentScenario) (r : ScenarioResult) :
  analyze_adjustment_scenarios scenario = Ok r ->
  r_max_loss r <= r_max_profit r.
Proof.
  intros Hr. apply analyze_Ok_inv in Hr.
  destruct Hr as (mp & ml & recs & Hmp & Hml & _ & ->). simpl.
  apply max_Ok_inv in Hmp. apply min_Ok_inv in Hml.
  apply round2_mono. apply Hmp. apply Hml.
Qed.

Lemma max_loss_le_max_profit_witness :
  exists r, analyze_adjustment_scenarios straddle_request = Ok r /\
            r_max_loss r <= r_max_profit r.
Proof.
  assert (Hcp : 2 # 3 <= current_price straddle_request) by discriminate.
  destruct (analyze_Ok straddle_request Hcp) as [r Hr].
  exists r. split; [ exact Hr | exact (max_loss_le_max_profit _ r Hr) ].
Defined.

(* ------------------------------------------------------------------ *)
(** ** Further properties of the recommendation rules *)

(** The leg-shape rules are exclusive: a losing position gets the
    loss-percent entry (if any), then at most one shape entry, then the
    reminder. *)
Lemma loss_case_recs (cp pnl mp ml : Q) (opts : list OptionLeg) :
  pnl < 0 ->
  exists shape,
    recommendations_of cp pnl mp ml opts =
      Ok (loss_percent_recs (Qabs pnl / loss_divisor ml * 100)
          ++ shape ++ [info_rec]) /\
    (shape = [] \/ shape = [roll_up_rec cp] \/
     shape = [roll_down_rec cp] \/
     (shape = [condor_rec] /\ length (calls_of opts) = 2%nat /\
      length (puts_of opts) = 2%nat)).
Proof.
  intros Hpnl.
  unfold recommendations_of, loss_rules, loss_percent_recs.
  rewrite (proj2 (Qltb_true pnl 0) Hpnl), (Qgtb_neg_0 pnl Hpnl).
  rewrite loss_percent_of_Ok. simpl.
  set (lp := Qabs pnl / loss_divisor ml * 100).
  set (l1 := if Qgtb lp 50 then [close_rec lp]
             else if Qgtb lp 25 then [roll_rec lp] else []).
  destruct (length (calls_of opts) =? 2)%nat eqn:Ec2;
    destruct (length (puts_of opts) =? 0)%nat eqn:Ep0;
    destruct (length (puts_of opts) =? 2)%nat eqn:Ep2;
    destruct (length (calls_of opts) =? 0)%nat eqn:Ec0;
    rewrite ?Nat.eqb_eq, ?Nat.eqb_neq in *; try lia; simpl.
  all: try (destruct (max_of_two strike _ Ec2) as [top Ht]; rewrite Ht; simpl;
            destruct (Qgtb cp top)).
  all: try (destruct (min_of_two strike _ Ep2) as [low Hl]; rewrite Hl; simpl;
            destruct (Qltb cp low)).
  all: first
    [ exists []; split; [ reflexivity | auto ]
    | exists [roll_up_rec cp]; split; [ rewrite <- ?app_assoc; reflexivity | auto ]
    | exists [roll_down_rec cp]; split; [ rewrite <- ?app_assoc; reflexivity | auto ]
    | exists [condor_rec]; split; [ rewrite <- ?app_assoc; reflexivity | auto 6 ] ].
Qed.

Lemma profit_case_recs (cp pnl mp ml : Q) (opts : list OptionLeg) :
  0 < pnl ->
  exists pp,
    profit_percent_of pnl mp = Ok pp /\
    recommendations_of cp pnl mp ml opts = Ok (profit_percent_recs pp ++ [info_rec]).
Proof.
  intros Hpnl.
  destruct (profit_percent_of_Ok pnl mp) as [pp Hpp]. exists pp.
  split; [ exact Hpp | ].
  unfold recommendations_of, profit_rules, profit_percent_recs.
  rewrite (proj2 (Qltb_false pnl 0)) by lra.
  rewrite (proj2 (Qgtb_true pnl 0) Hpnl). simpl. rewrite Hpp. simpl.
  destruct (Qgtb pp 75); [ | destruct (Qgtb pp 50) ]; reflexivity.
Qed.

Lemma zero_case_recs (cp pnl mp ml : Q) (opts : list OptionLeg) :
  pnl == 0 -> recommendations_of cp pnl mp ml opts = Ok [info_rec].
Proof.
  intros Hz. unfold recommendations_of.
  rewrite (proj2 (Qltb_false pnl 0)) by lra.
  rewrite (proj2 (Qgtb_false pnl 0)) by lra. reflexivity.
Qed.

Lemma loss_percent_recs_length (lp : Q) : (length (loss_percent_recs lp) <= 1)%nat.
Proof.
  unfold loss_percent_recs.
  destruct (Qgtb lp 50); [ | destruct (Qgtb lp 25) ]; simpl; lia.
Qed.

Lemma profit_percent_recs_length (pp : Q) : (length (profit_percent_recs pp) <= 1)%nat.
Proof.
  unfold profit_percent_recs.
  destruct (Qgtb pp 75); [ | destruct (Qgtb pp 50) ]; simpl; lia.
Qed.

(** X10. Every result carries between one and three recommendations: at
    most one from the loss-percent or the profit rule, at most one from the
    leg-shape rules, and the reminder. *)
Theorem recommendations_between_one_and_three
    (scenario : AdjustmentScenario) (r : ScenarioResult) :
  analyze_adjustment_scenarios scenario = Ok r ->
  (1 <= length (r_recommendations r) <= 3)%nat.
Proof.
  intros Hr. apply analyze_Ok_inv in Hr.
  destruct Hr as (mp & ml & recs & _ & _ & Hrecs & ->). simpl.
  set (pnl := calculate_payoff (current_price scenario) (options scenario)) in *.
  destruct (Q_dec pnl 0) as [[Hneg | Hpos] | Hz].
  - destruct (loss_case_recs (current_price scenario) pnl mp ml (options scenario) Hneg)
      as (shape & E & Hshape).
    rewrite E in Hrecs. injection Hrecs as <-.
    rewrite !length_app. simpl.
    pose proof (loss_percent_recs_length (Qabs pnl / loss_divisor ml * 100)).
    destruct Hshape as [-> | [-> | [-> | [-> _]]]]; simpl; lia.
  - destruct (profit_case_recs (current_price scenario) pnl mp ml (options scenario) Hpos)
      as (pp & _ & E).
    rewrite E in Hrecs. injection Hrecs as <-.
    rewrite length_app. simpl.
    pose proof (profit_percent_recs_length pp). lia.
  - rewrite (zero_case_recs _ pnl mp ml _ Hz) in Hrecs. injection Hrecs as <-.
    simpl. lia.
Qed.

Lemma recommendations_between_one_and_three_witness :
  exists r, analyze_adjustment_scenarios aapl_request = Ok r /\
            (1 <= length (r_recommendations r) <= 3)%nat.
Proof.
  assert (Hcp : 2 # 3 <= current_price aapl_request) by discriminate.
  destruct (analyze_Ok aapl_request Hcp) as [r Hr].
  exists r. split; [ exact Hr | ].
  exact (recommendations_between_one_and_three aapl_request r Hr).
Defined.

(** X11. On a losing iron condor (exactly two call legs and two put legs,
    negative current P&L) the result holds exactly one [adjust]
    recommendation, the advice on the tested side, placed after the
    loss-percent entry (if any) and before the reminder. *)
Theorem iron_condor_adjust (scenario : AdjustmentScenario) (r : ScenarioResult) :
  analyze_adjustment_scenarios scenario = Ok r ->
  calculate_payoff (current_price scenario) (options scenario) < 0 ->
  length (calls_of (options scenario)) = 2%nat ->
  length (puts_of (options scenario)) = 2%nat ->
  exists l,
    r_recommendations r = l ++ [condor_rec; info_rec] /\
    Forall (fun x => rec_type x <> "adjust"%string) l /\
    rec_type condor_rec = "adjust"%string /\
    rec_urgency condor_rec = "medium"%string.
Proof.
  intros Hr Hpnl Hc Hp. apply analyze_Ok_inv in Hr.
  destruct Hr as (mp & ml & recs & _ & _ & Hrecs & ->). simpl.
  unfold recommendations_of, loss_rules in Hrecs.
  rewrite (proj2 (Qltb_true _ 0) Hpnl), (Qgtb_neg_0 _ Hpnl) in Hrecs.
  rewrite loss_percent_of_Ok, Hc, Hp in Hrecs. simpl in Hrecs.
  exists (loss_percent_recs
            (Qabs (calculate_payoff (current_price scenario) (options scenario))
             / loss_divisor ml * 100)).
  split; [ | split; [ apply loss_percent_recs_not_adjust | split; reflexivity ] ].
  injection Hrecs as <-. unfold loss_percent_recs.
  destruct (Qgtb _ 50); [ | destruct (Qgtb _ 25) ]; reflexivity.
Qed.

Lemma iron_condor_adjust_witness :
  exists r l,
    analyze_adjustment_scenarios condor_request = Ok r /\
    r_recommendations r = l ++ [condor_rec; info_rec] /\
    Forall (fun x => rec_type x <> "adjust"%string) l.
Proof.
  assert (Hcp : 2 # 3 <= current_price condor_request) by discriminate.
  destruct (analyze_Ok condor_request Hcp) as [r Hr].
  destruct (iron_condor_adjust condor_request r Hr eq_refl eq_refl eq_refl)
    as (l & Hl & Hna & _).
  exists r, l. split; [ exact Hr | split; [ exact Hl | exact Hna ] ].
Defined.

Lemma percent_threshold (x y t : Q) :
  0 < y -> (t * 100 < x / y * 100 <-> t * y < x).
Proof.
  intros Hy.
  assert (E : x == x / y * y) by (field; lra).
  split; intros H.
  - rewrite E. apply Qmult_lt_r; [ exact Hy | lra ].
  - rewrite E in H. apply Qmult_lt_r in H; [ lra | exact Hy ].
Qed.

(** X12. On a losing position the first rule recommends [close] exactly
    when the loss exceeds half of the divisor [|max_loss|] (or 1 when the
    scan's worst payoff is 0), and [roll] exactly when it exceeds a quarter
    of it without exceeding half. *)
Theorem loss_rule_thresholds (scenario : AdjustmentScenario) (r : ScenarioResult) :
  analyze_adjustment_scenarios scenario = Ok r ->
  calculate_payoff (current_price scenario) (options scenario) < 0 ->
  let pnl := calculate_payoff (current_price scenario) (options scenario) in
  exists max_loss,
    Py.min (scan_payoffs (current_price scenario) (options scenario)) = Ok max_loss /\
    (In "close"%string (map rec_type (r_recommendations r)) <->
     (1 # 2) * loss_divisor max_loss < Qabs pnl) /\
    (In "roll"%string (map rec_type (r_recommendations r)) <->
     (1 # 4) * loss_divisor max_loss < Qabs pnl <= (1 # 2) * loss_divisor max_loss).
Proof.
  intros Hr Hpnl pnl. apply analyze_Ok_inv in Hr.
  destruct Hr as (mp & ml & recs & _ & Hml & Hrecs & ->). simpl.
  exists ml. split; [ exact Hml | ].
  destruct (loss_case_recs (current_price scenario) pnl mp ml (options scenario) Hpnl)
    as (shape & E & Hshape).
  fold pnl in Hrecs. rewrite E in Hrecs. injection Hrecs as <-.
  assert (Hd : 0 < loss_divisor ml).
  { pose proof (loss_divisor_nonzero ml) as Hnz. unfold loss_divisor in *.
    destruct (negb (Qeq_bool ml 0)); [ | reflexivity ].
    pose proof (Qabs_nonneg ml). lra. }
  pose proof (percent_threshold (Qabs pnl) _ (1 # 2) Hd) as H50.
  pose proof (percent_threshold (Qabs pnl) _ (1 # 4) Hd) as H25.
  set (lp := Qabs pnl / loss_divisor ml * 100) in *.
  assert (Hs : ~ In "close"%string (map rec_type (shape ++ [info_rec])) /\
               ~ In "roll"%string (map rec_type (shape ++ [info_rec]))).
  { destruct Hshape as [-> | [-> | [-> | [-> _]]]]; simpl;
      split; intros H; repeat (destruct H as [H | H]; try discriminate H); exact H. }
  destruct Hs as [Hsc Hsr].
  rewrite map_app, !in_app_iff.
  unfold loss_percent_recs.
  destruct (Qgtb lp 50) eqn:E50; [ | destruct (Qgtb lp 25) eqn:E25 ]; simpl;
    rewrite ?Qgtb_true, ?Qgtb_false in *.
  - split; split; intros H.
    + apply H50. lra.
    + auto.
    + destruct H as [[H | []] | H]; [ discriminate H | contradiction ].
    + exfalso. assert (Qabs pnl / loss_divisor ml * 100 <= (1 # 2) * 100)
        by (apply Qnot_lt_le; intros Hc; apply H50 in Hc; lra).
      fold lp in H0. lra.
  - split; split; intros H.
    + destruct H as [[H | []] | H]; [ discriminate H | contradiction ].
    + exfalso. apply H50 in H. fold lp in H. lra.
    + split.
      * apply H25. fold lp. lra.
      * apply Qnot_lt_le. intros Hc. apply H50 in Hc. fold lp in Hc. lra.
    + auto.
  - split; split; intros H.
    + destruct H as [[] | H]; contradiction.
    + exfalso. apply H50 in H. fold lp in H. lra.
    + destruct H as [[] | H]; contradiction.
    + exfalso. destruct H as [H _]. apply H25 in H. fold lp in H. lra.
Qed.

Lemma loss_rule_thresholds_witness :
  exists r max_loss,
    analyze_adjustment_scenarios condor_request = Ok r /\
    Py.min (scan_payoffs (current_price condor_request) (options condor_request))
      = Ok max_loss /\
    (In "close"%string (map rec_type (r_recommendations r)) <->
     (1 # 2) * loss_divisor max_loss
     < Qabs (calculate_payoff (current_price condor_request) (options condor_request))).
Proof.
  assert (Hcp : 2 # 3 <= current_price condor_request) by discriminate.
  destruct (analyze_Ok condor_request Hcp) as [r Hr].
  destruct (loss_rule_thresholds condor_request r Hr eq_refl) as (ml & Hml & Hc & _).
  exists r, ml. split; [ exact Hr | split; [ exact Hml | exact Hc ] ].
Defined.

(** X13. On a winning position the result holds the profit entry (if any)
    and the reminder, nothing else.  With a scanned maximum [max_profit > 0]
    it recommends [take_profit] exactly when the P&L exceeds three quarters
    of it and [partial_close] exactly when it exceeds half of it without
    exceeding three quarters; with [max_profit <= 0] the guard sets the
    percentage to 0 and only the reminder is returned. *)
Theorem profit_rule_thresholds (scenario : AdjustmentScenario) (r : ScenarioResult) :
  analyze_adjustment_scenarios scenario = Ok r ->
  0 < calculate_payoff (current_price scenario) (options scenario) ->
  let pnl := calculate_payoff (current_price scenario) (options scenario) in
  exists max_profit pp,
    Py.max (scan_payoffs (current_price scenario) (options scenario)) = Ok max_profit /\
    r_recommendations r = profit_percent_recs pp ++ [info_rec] /\
    (max_profit <= 0 -> r_recommendations r = [info_rec]) /\
    (0 < max_profit ->
     (In "take_profit"%string (map rec_type (r_recommendations r)) <->
      (3 # 4) * max_profit < pnl) /\
     (In "partial_close"%string (map rec_type (r_recommendations r)) <->
      (1 # 2) * max_profit < pnl <= (3 # 4) * max_profit)).
Proof.
  intros Hr Hpnl pnl. apply analyze_Ok_inv in Hr.
  destruct Hr as (mp & ml & recs & Hmp & _ & Hrecs & ->). simpl.
  destruct (profit_case_recs (current_price scenario) pnl mp ml (options scenario) Hpnl)
    as (pp & Hpp & E).
  fold pnl in Hrecs. rewrite E in Hrecs. injection Hrecs as <-.
  exists mp, pp. split; [ exact Hmp | ]. split; [ reflexivity | ].
  unfold profit_percent_of in Hpp. split.
  - intros Hle. rewrite (proj2 (Qgtb_false mp 0) Hle) in Hpp.
    injection Hpp as <-. reflexivity.
  - intros Hgt. rewrite (proj2 (Qgtb_true mp 0) Hgt) in Hpp.
    rewrite div_Ok in Hpp by lra. simpl in Hpp. injection Hpp as <-.
    pose proof (percent_threshold pnl mp (3 # 4) Hgt) as H75.
    pose proof (percent_threshold pnl mp (1 # 2) Hgt) as H50.
    set (pp := pnl / mp * 100) in *.
    unfold profit_percent_recs.
    destruct (Qgtb pp 75) eqn:E75; [ | destruct (Qgtb pp 50) eqn:E50 ]; simpl;
      rewrite ?Qgtb_true, ?Qgtb_false in *.
    + split; split; intros H.
      * apply H75. lra.
      * auto.
      * destruct H as [H | [H | []]]; discriminate H.
      * exfalso. destruct H as [_ H].
        assert (Hc : (3 # 4) * mp < pnl) by (apply H75; lra). lra.
    + split; split; intros H.
      * destruct H as [H | [H | []]]; discriminate H.
      * exfalso. apply H75 in H. lra.
      * split; [ apply H50; lra | ].
        apply Qnot_lt_le. intros Hc. apply H75 in Hc. lra.
      * auto.
    + split; split; intros H.
      * destruct H as [H | []]; discriminate H.
      * exfalso. apply H75 in H. lra.
      * destruct H as [H | []]; discriminate H.
      * exfalso. destruct H as [H _]. apply H50 in H. lra.
Qed.

Lemma profit_rule_thresholds_witness :
  exists r max_profit pp,
    analyze_adjustment_scenarios winning_call_request = Ok r /\
    Py.max (scan_payoffs (current_price winning_call_request)
              (options winning_call_request)) = Ok max_profit /\
    r_recommendations r = profit_percent_recs pp ++ [info_rec].
Proof.
  assert (Hcp : 2 # 3 <= current_price winning_call_request) by discriminate.
  destruct (analyze_Ok winning_call_request Hcp) as [r Hr].
  destruct (profit_rule_thresholds winning_call_request r Hr eq_refl)
    as (mp & pp & Hmp & Hl & _).
  exists r, mp, pp. split; [ exact Hr | split; [ exact Hmp | exact Hl ] ].
Defined.

(* ------------------------------------------------------------------ *)
(** ** Further properties of the scenario transform *)

(** X14. A non-zero [scenario_value] is used as given, without clamping:
    [price_up] prices at [p (1 + v)] and [price_down] at [p (1 - v)], so a
    [price_down] of more than 100% on a positive price gives a negative
    scenario price. *)
Theorem nonzero_scenario_value_is_used (scenario : AdjustmentScenario) (v : Q) :
  scenario_value scenario = Some v -> ~ v == 0 ->
  (scenario_type scenario = "price_up"%string ->
   scenario_price_of scenario = current_price scenario * (1 + v)) /\
  (scenario_type scenario = "price_down"%string ->
   scenario_price_of scenario = current_price scenario * (1 - v) /\
   (0 < current_price scenario -> 1 < v -> scenario_price_of scenario < 0)).
Proof.
  intros Hv Hnz.
  assert (Hor : Py.or_default (scenario_value scenario) (1 # 10) = v).
  { rewrite Hv. simpl. destruct (Qeq_bool v 0) eqn:E; [ | reflexivity ].
    apply Qeq_bool_eq in E. contradiction. }
  split.
  - intros Hup. unfold scenario_price_of. now rewrite Hup, Hor.
  - intros Hdown.
    assert (E : scenario_price_of scenario = current_price scenario * (1 - v))
      by (unfold scenario_price_of; now rewrite Hdown, Hor).
    split; [ exact E | ]. intros Hcp H1. rewrite E.
    assert (H : 0 < current_price scenario * (v - 1))
      by (apply Qmult_lt_0_compat; lra).
    lra.
Qed.

Lemma nonzero_scenario_value_is_used_witness :
  scenario_price_of winning_call_request = 140 * (1 + (1 # 4)).
Proof.
  apply (proj1 (nonzero_scenario_value_is_used winning_call_request (1 # 4)
                  eq_refl ltac:(discriminate)) eq_refl).
Defined.

(** X15. A [price_up] scenario of non-negative magnitude (or the default)
    on a non-negative price never shows a loss against the current P&L for a
    position of bought calls and sold puts: [scenario_pnl >= current_pnl]
    and [pnl_change >= 0] in the result. *)
Theorem price_up_helps_bullish (scenario : AdjustmentScenario) (r : ScenarioResult) :
  analyze_adjustment_scenarios scenario = Ok r ->
  scenario_type scenario = "price_up"%string ->
  0 <= current_price scenario ->
  (forall v, scenario_value scenario = Some v -> 0 <= v) ->
  Forall (fun o => bullish o /\ (0 <= quantity o)%Z) (options scenario) ->
  r_current_pnl r <= r_scenario_pnl r /\ 0 <= r_pnl_change r.
Proof.
  intros Hr Hup Hcp Hv Hlegs. apply analyze_Ok_inv in Hr.
  destruct Hr as (mp & ml & recs & _ & _ & _ & ->). simpl.
  assert (Hd : 0 <= Py.or_default (scenario_value scenario) (1 # 10)).
  { destruct (scenario_value scenario) as [v | ] eqn:E; simpl; [ | discriminate ].
    destruct (Qeq_bool v 0); [ discriminate | now apply Hv ]. }
  assert (Hsp : current_price scenario <= scenario_price_of scenario).
  { unfold scenario_price_of. rewrite Hup. simpl.
    pose proof (Qmult_le_0_compat _ _ Hcp Hd). lra. }
  pose proof (bullish_payoff_monotone_aux _ _ (options scenario) Hlegs Hsp) as Hm.
  split.
  - now apply round2_mono.
  - apply Qle_trans with (Py.round2 0); [ discriminate | ].
    apply round2_mono. lra.
Qed.

Lemma price_up_helps_bullish_witness :
  exists r, analyze_adjustment_scenarios winning_call_request = Ok r /\
            r_current_pnl r <= r_scenario_pnl r /\ 0 <= r_pnl_change r.
Proof.
  assert (Hcp : 2 # 3 <= current_price winning_call_request) by discriminate.
  destruct (analyze_Ok winning_call_request Hcp) as [r Hr].
  exists r. split; [ exact Hr | ].
  apply (price_up_helps_bullish winning_call_request r Hr eq_refl).
  - discriminate.
  - intros v Hv. injection Hv as <-. discriminate.
  - repeat constructor; discriminate.
Defined.


(* ------------------------------------------------------------------ *)
(** ** Roll suggestions *)

Lemma round_half_even_near (x : Q) :
  x - (1 # 2) <= inject_Z (Py.round_half_even x) <= x + (1 # 2).
Proof.
  unfold Py.round_half_even.
  pose proof (Qfloor_le x) as Hlo. pose proof (Qlt_floor x) as Hhi.
  rewrite inject_Z_plus in Hhi. change (inject_Z 1) with 1 in Hhi.
  destruct (Qcompare_spec (x - inject_Z (Qfloor x)) (1 # 2)) as [H | H | H];
    [ destruct (Z.even (Qfloor x)) | | ];
    rewrite ?inject_Z_plus; change (inject_Z 1) with 1; split; lra.
Qed.

Lemma rolled_strike_near (cp : Q) (d : Z) :
  cp + inject_Z d - (5 # 2)
  <= inject_Z (Py.round_half_even (cp / 5) * 5 + d)
  <= cp + inject_Z d + (5 # 2).
Proof.
  pose proof (round_half_even_near (cp / 5)) as H.
  rewrite inject_Z_plus, inject_Z_mult. change (inject_Z 5) with 5.
  assert (E : cp == cp / 5 * 5) by (field; discriminate).
  set (k := inject_Z (Py.round_half_even (cp / 5))) in *.
  set (c := cp / 5) in *. split; lra.
Qed.

Lemma Qeq_bool_false (x y : Q) : ~ x == y -> Qeq_bool x y = false.
Proof.
  intros H. destruct (Qeq_bool x y) eqn:E; [ | reflexivity ].
  apply Qeq_bool_eq in E. contradiction.
Qed.

(** X16. A call whose strike is below the current price is always rolled:
    its suggestion names the strike [5 * round(p / 5) + 5], a multiple of 5
    that lies above the price by at least 2.5 and at most 7.5, and the
    estimated credit is at least 0.25. *)
Theorem call_below_price_is_rolled_up
    (upper : string -> string) (float_str : Q -> string)
    (cp : Q) (opt : OptionLeg) (suggestions : list RollSuggestion) :
  type opt = "call"%string -> strike opt < cp ->
  exists k : Z,
    new_strike_of cp opt = Int k /\
    (k mod 5 = 0)%Z /\
    cp + (5 # 2) <= inject_Z k <= cp + (15 # 2) /\
    roll_step upper float_str cp suggestions opt
      = suggestions ++ [suggestion_of upper float_str opt (Int k)] /\
    suggested (suggestion_of upper float_str opt (Int k))
      = (upper (action opt) ++ " " ++ upper (type opt) ++ " $" ++ Py.str k)%string /\
    1 # 4 <= estimated_credit_debit (suggestion_of upper float_str opt (Int k)).
Proof.
  intros Ht Hlt.
  exists (Py.round_half_even (cp / 5) * 5 + 5)%Z.
  assert (E : new_strike_of cp opt = Int (Py.round_half_even (cp / 5) * 5 + 5)).
  { unfold new_strike_of. rewrite Ht, (proj2 (Qgtb_true cp (strike opt)) Hlt).
    reflexivity. }
  pose proof (rolled_strike_near cp 5) as Hk. change (inject_Z 5) with 5 in Hk.
  split; [ exact E | ].
  split; [ rewrite Z.add_comm, Z.mul_comm; rewrite Z.add_mod by lia;
           rewrite Z.mul_comm, Z.mod_mul by lia; reflexivity | ].
  split; [ split; lra | ].
  split; [ | split; [ reflexivity | ] ].
  - unfold roll_step. rewrite E. simpl num_val.
    rewrite Qeq_bool_false by lra. reflexivity.
  - simpl. apply Qle_trans with (Py.round2 (1 # 4)); [ discriminate | ].
    apply round2_mono. lra.
Qed.

Lemma call_below_price_is_rolled_up_witness :
  exists k : Z,
    new_strike_of (371 # 2) (leg "call" "sell" 180 (5 # 2) 1) = Int k /\
    (371 # 2) + (5 # 2) <= inject_Z k <= (371 # 2) + (15 # 2).
Proof.
  destruct (call_below_price_is_rolled_up ascii_upper whole_float_str (371 # 2)
              (leg "call" "sell" 180 (5 # 2) 1) [] eq_refl eq_refl)
    as (k & Hk & _ & Hb & _).
  exists k. split; [ exact Hk | exact Hb ].
Defined.

(** X17. A put whose strike is above the current price is always rolled:
    its suggestion names the strike [5 * round(p / 5) - 5], a multiple of 5
    that lies below the price by at least 2.5 and at most 7.5, and the
    estimate is a debit of at least 0.25.  Nothing keeps the new strike
    positive: below a price of 7.5 it is zero or negative. *)
Theorem put_above_price_is_rolled_down
    (upper : string -> string) (float_str : Q -> string)
    (cp : Q) (opt : OptionLeg) (suggestions : list RollSuggestion) :
  type opt = "put"%string -> cp < strike opt ->
  exists k : Z,
    new_strike_of cp opt = Int k /\
    (k mod 5 = 0)%Z /\
    cp - (15 # 2) <= inject_Z k <= cp - (5 # 2) /\
    roll_step upper float_str cp suggestions opt
      = suggestions ++ [suggestion_of upper float_str opt (Int k)] /\
    estimated_credit_debit (suggestion_of upper float_str opt (Int k)) <= - (1 # 4) /\
    (cp < 15 # 2 -> (k <= 0)%Z).
Proof.
  intros Ht Hlt.
  exists (Py.round_half_even (cp / 5) * 5 - 5)%Z.
  assert (E : new_strike_of cp opt = Int (Py.round_half_even (cp / 5) * 5 - 5)).
  { unfold new_strike_of. rewrite Ht, (proj2 (Qltb_true cp (strike opt)) Hlt).
    reflexivity. }
  pose proof (rolled_strike_near cp (-5)) as Hk.
  change (inject_Z (-5)) with (-5 # 1) in Hk.
  change (Py.round_half_even (cp / 5) * 5 + -5)%Z
    with (Py.round_half_even (cp / 5) * 5 - 5)%Z in Hk.
  split; [ exact E | ].
  split; [ unfold Z.sub; rewrite Z.add_comm, Z.add_mod by lia;
           rewrite Z.mod_mul by lia; reflexivity | ].
  split; [ split; lra | ].
  split; [ | split ].
  - unfold roll_step. rewrite E. simpl num_val.
    rewrite Qeq_bool_false by lra. reflexivity.
  - simpl. apply Qle_trans with (Py.round2 (- (1 # 4))); [ | discriminate ].
    apply round2_mono. lra.
  - intros Hsmall.
    assert (H : inject_Z (Py.round_half_even (cp / 5) * 5 - 5) < inject_Z 5)
      by (change (inject_Z 5) with 5; lra).
    rewrite <- Zlt_Qlt in H. lia.
Qed.

Lemma put_above_price_is_rolled_down_witness :
  exists k : Z,
    new_strike_of (371 # 2) (leg "put" "buy" 200 3 1) = Int k /\
    (371 # 2) - (15 # 2) <= inject_Z k <= (371 # 2) - (5 # 2).
Proof.
  destruct (put_above_price_is_rolled_down ascii_upper whole_float_str (371 # 2)
              (leg "put" "buy" 200 3 1) [] eq_refl eq_refl)
    as (k & Hk & _ & Hb & _).
  exists k. split; [ exact Hk | exact Hb ].
Defined.





(* ------------------------------------------------------------------ *)
(** ** The mock option chain *)

Lemma chain_row_strike (s cp : Q) (k : Z) (r : ChainRow) :
  chain_row s cp k = Ok r -> chain_strike r = k.
Proof.
  unfold chain_row. intros H. apply bind_Ok_inv in H.
  destruct H as (d & _ & H). injection H as <-. reflexivity.
Qed.

Lemma chain_row_Ok (s cp : Q) (k : Z) :
  ~ cp == 0 -> exists r, chain_row s cp k = Ok r.
Proof.
  intros H. unfold chain_row. rewrite div_Ok by exact H. simpl. eauto.
Qed.


(** The rows the loop adds are the rows of the positive strikes, in order. *)
Lemma chain_loop_rows (s cp : Q) (base : Z) (steps : list Z)
    (acc rows : list ChainRow) :
  chain_loop s cp base steps acc = Ok rows ->
  exists new,
    rows = acc ++ new /\
    Forall2 (fun k r => chain_row s cp k = Ok r) (chain_strikes base steps) new.
Proof.
  revert acc. unfold chain_strikes.
  induction steps as [ | i steps IH]; intros acc H; simpl in *.
  - injection H as <-. exists []. split; [ now rewrite app_nil_r | constructor ].
  - destruct (base + i * 5 >? 0)%Z.
    + apply bind_Ok_inv in H. destruct H as (row & Hrow & H).
      destruct (IH _ H) as (new & -> & HF).
      exists (row :: new). split; [ now rewrite <- app_assoc | ].
      constructor; assumption.
    + now apply IH.
Qed.

Lemma chain_loop_Ok (s cp : Q) (base : Z) (steps : list Z) (acc : list ChainRow) :
  ~ cp == 0 -> exists rows, chain_loop s cp base steps acc = Ok rows.
Proof.
  intros Hcp. revert acc.
  induction steps as [ | i steps IH]; intros acc; simpl; [ eauto | ].
  destruct (base + i * 5 >? 0)%Z; [ | apply IH ].
  destruct (chain_row_Ok s cp (base + i * 5) Hcp) as [row ->]. simpl. apply IH.
Qed.


Lemma Forall2_strikes (s cp : Q) (ks : list Z) (rows : list ChainRow) :
  Forall2 (fun k r => chain_row s cp k = Ok r) ks rows ->
  map chain_strike rows = ks.
Proof.
  induction 1 as [ | k r ks rows Hr _ IH]; simpl; [ reflexivity | ].
  now rewrite IH, (chain_row_strike _ _ _ _ Hr).
Qed.

Lemma Forall2_row_In (s cp : Q) (ks : list Z) (rows : list ChainRow) (r : ChainRow) :
  Forall2 (fun k r => chain_row s cp k = Ok r) ks rows ->
  In r rows -> exists k, In k ks /\ chain_row s cp k = Ok r.
Proof.
  induction 1 as [ | k r' ks rows Hr _ IH]; simpl; [ contradiction | ].
  intros [<- | Hin].
  - exists k. auto.
  - destruct (IH Hin) as (k' & Hk' & Hrow). exists k'. auto.
Qed.

Lemma StronglySorted_filter {A : Type} (R : A -> A -> Prop) (f : A -> bool)
    (l : list A) :
  StronglySorted R l -> StronglySorted R (filter f l).
Proof.
  induction 1 as [ | a l _ IH Ha]; simpl; [ constructor | ].
  destruct (f a); [ | exact IH ].
  constructor; [ exact IH | ].
  rewrite Forall_forall in *. intros x Hx. apply filter_In in Hx.
  apply Ha. tauto.
Qed.

Lemma ladder_sorted (base : Z) :
  StronglySorted Z.lt (map (fun i => (base + i * 5)%Z) (Py.range (-10) 11)).
Proof.
  change (Py.range (-10) 11)
    with [-10; -9; -8; -7; -6; -5; -4; -3; -2; -1; 0;
          1; 2; 3; 4; 5; 6; 7; 8; 9; 10]%Z.
  simpl. repeat (constructor; [ | repeat (constructor; [ lia | ]); constructor ]).
  constructor.
Qed.

Lemma chain_strikes_In (base : Z) (k : Z) :
  In k (chain_strikes base (Py.range (-10) 11)) <->
  (0 < k)%Z /\ exists i, (-10 <= i <= 10)%Z /\ k = (base + i * 5)%Z.
Proof.
  unfold chain_strikes. rewrite filter_In, in_map_iff. split.
  - intros [(i & <- & Hi) Hpos]. apply range_In in Hi.
    split; [ lia | ]. exists i. split; [ lia | reflexivity ].
  - intros [Hpos (i & Hi & ->)]. split; [ | lia ].
    exists i. split; [ reflexivity | apply range_In; lia ].
Qed.

Lemma get_option_chain_inv (s : Q) (symbol : string) (expiration : option string)
    (quote : option Q) (resp : ChainResponse) :
  get_option_chain s symbol expiration quote = Ok resp ->
  let cp := match quote with Some p => p | None => 150 end in
  currentPrice resp = cp /\
  Forall2 (fun k r => chain_row s cp k = Ok r)
    (chain_strikes (base_strike_of cp) (Py.range (-10) 11)) (chain_options resp).
Proof.
  intros H cp. unfold get_option_chain in H. apply bind_Ok_inv in H.
  destruct H as (rows & Hrows & H). injection H as <-. simpl.
  split; [ reflexivity | ].
  apply chain_loop_rows in Hrows. destruct Hrows as (new & -> & HF). exact HF.
Qed.

(** X19. The chain lists exactly the positive strikes of the ladder
    [base + 5 i] for [i] from -10 to 10 around [base = 5 * round(p / 5)], in
    strictly increasing order: at most 21 rows, all of them when the price
    is above 52.5. *)
Theorem chain_strike_ladder (s : Q) (symbol : string) (expiration : option string)
    (quote : option Q) (resp : ChainResponse) :
  get_option_chain s symbol expiration quote = Ok resp ->
  let cp := match quote with Some p => p | None => 150 end in
  let strikes := map chain_strike (chain_options resp) in
  (forall k, In k strikes <->
     (0 < k)%Z /\
     exists i, (-10 <= i <= 10)%Z /\ k = (base_strike_of cp + i * 5)%Z) /\
  StronglySorted Z.lt strikes /\
  (length (chain_options resp) <= 21)%nat /\
  (105 # 2 < cp -> length (chain_options resp) = 21%nat).
Proof.
  intros H cp strikes. apply get_option_chain_inv in H. destruct H as [_ HF].
  fold cp in HF. apply Forall2_strikes in HF. subst strikes. rewrite HF.
  split; [ intros k; apply chain_strikes_In | ].
  split; [ apply StronglySorted_filter, ladder_sorted | ].
  rewrite <- (length_map chain_strike), HF. unfold chain_strikes.
  split.
  - eapply Nat.le_trans; [ apply filter_length_le | ].
    rewrite length_map, range_length. simpl. lia.
  - intros Hcp.
    pose proof (rolled_strike_near cp 0) as Hb.
    change (inject_Z 0) with 0 in Hb.
    assert (Hpos : (50 < Py.round_half_even (cp / 5) * 5 + 0)%Z).
    { rewrite Zlt_Qlt. change (inject_Z 50) with 50. lra. }
    rewrite Z.add_0_r in Hpos.
    rewrite forallb_filter_id.
    + rewrite length_map, range_length. reflexivity.
    + apply forallb_forall. intros k Hk. apply in_map_iff in Hk.
      destruct Hk as (i & <- & Hi). apply range_In in Hi.
      unfold base_strike_of. lia.
Qed.

Lemma chain_strike_ladder_witness :
  exists resp,
    get_option_chain sqrt_time_to_expiry_approx "AAPL" None (Some 12) = Ok resp /\
    map chain_strike (chain_options resp)
      = [5; 10; 15; 20; 25; 30; 35; 40; 45; 50; 55; 60]%Z /\
    StronglySorted Z.lt (map chain_strike (chain_options resp)).
Proof.
  eexists. split; [ vm_compute; reflexivity | ].
  split; [ reflexivity | ].
  refine (proj1 (proj2 (chain_strike_ladder sqrt_time_to_expiry_approx
                          "AAPL" None (Some 12) _ _))).
  vm_compute; reflexivity.
Defined.

Lemma get_option_chain_Ok (s : Q) (symbol : string) (expiration : option string)
    (quote : option Q) :
  ~ match quote with Some p => p | None => 150 end == 0 ->
  exists resp, get_option_chain s symbol expiration quote = Ok resp.
Proof.
  intros H. unfold get_option_chain.
  destruct (chain_loop_Ok s _ (base_strike_of
              match quote with Some p => p | None => 150 end)
              (Py.range (-10) 11) [] H) as [rows ->].
  simpl. eauto.
Qed.


Lemma chain_row_fields (s cp : Q) (k : Z) (r : ChainRow) :
  chain_row s cp k = Ok r ->
  let d := Qabs (inject_Z k - cp) / cp in
  let biv := (1 # 4) + d * (1 # 10) in
  chain_strike r = k /\
  callBid r = Py.round2 (call_premium_of s cp k d biv * (19 # 20)) /\
  callAsk r = Py.round2 (call_premium_of s cp k d biv * (21 # 20)) /\
  callVolume r = Py.int (10000 * (1 - d)) /\
  putBid r = Py.round2 (put_premium_of s cp k d biv * (19 # 20)) /\
  putAsk r = Py.round2 (put_premium_of s cp k d biv * (21 # 20)) /\
  putVolume r = Py.int (8000 * (1 - d)) /\
  iv r = round4 biv /\
  isAtTheMoney r = Qltb (Qabs (inject_Z k - cp)) (5 # 2).
Proof.
  intros H d biv. unfold chain_row in H. apply bind_Ok_inv in H.
  destruct H as (d' & Hd & H). unfold Py.div in Hd.
  destruct (Qeq_bool cp 0); [ discriminate | ]. injection Hd as <-.
  injection H as <-. simpl. repeat split.
Qed.

(** X21. A row is flagged at the money exactly when its strike is the base
    strike [5 * round(p / 5)] and that strike is within 2.5 of the price:
    at most one row of a chain carries the flag. *)
Theorem at_the_money_is_the_base_strike
    (s : Q) (symbol : string) (expiration : option string) (quote : option Q)
    (resp : ChainResponse) (r : ChainRow) :
  get_option_chain s symbol expiration quote = Ok resp ->
  In r (chain_options resp) ->
  let cp := match quote with Some p => p | None => 150 end in
  isAtTheMoney r = true <->
  chain_strike r = base_strike_of cp /\
  Qabs (inject_Z (base_strike_of cp) - cp) < 5 # 2.
Proof.
  intros H Hr cp. apply get_option_chain_inv in H. destruct H as [_ HF].
  fold cp in HF.
  destruct (Forall2_row_In _ _ _ _ r HF Hr) as (k & Hk & Hrow).
  apply chain_strikes_In in Hk. destruct Hk as [Hpos (i & Hi & Hki)].
  apply chain_row_fields in Hrow.
  destruct Hrow as (Hs & _ & _ & _ & _ & _ & _ & _ & Hatm).
  rewrite Hatm, Hs, Qltb_true. split.
  - intros Hlt.
    assert (Hi0 : i = 0%Z).
    { pose proof (rolled_strike_near cp 0) as Hb.
      change (inject_Z 0) with 0 in Hb. rewrite Z.add_0_r in Hb.
      fold (base_strike_of cp) in Hb.
      apply Qabs_diff_Qlt_condition in Hlt.
      assert (Hq : inject_Z (-5) < inject_Z (i * 5) < inject_Z 5).
      { replace (i * 5)%Z with (k - base_strike_of cp)%Z by lia.
        unfold Zminus. rewrite inject_Z_plus, inject_Z_opp.
        change (inject_Z (-5)) with (-5 # 1). change (inject_Z 5) with 5.
        split; lra. }
      rewrite <- !Zlt_Qlt in Hq. lia. }
    subst i. rewrite Z.add_0_r in Hki. subst k. split; [ reflexivity | exact Hlt ].
  - intros [-> Hlt]. exact Hlt.
Qed.

Lemma at_the_money_is_the_base_strike_witness :
  exists resp r,
    get_option_chain sqrt_time_to_expiry_approx "AAPL" None (Some 12) = Ok resp /\
    In r (chain_options resp) /\
    isAtTheMoney r = true /\ chain_strike r = 10%Z.
Proof.
  assert (Hp : ~ 12 == 0) by discriminate.
  destruct (get_option_chain_Ok sqrt_time_to_expiry_approx "AAPL" None (Some 12) Hp)
    as [resp Hresp].
  pose proof (get_option_chain_inv _ _ _ _ _ Hresp) as [_ HF].
  destruct (chain_row_Ok sqrt_time_to_expiry_approx 12 10 Hp) as [r Hr].
  assert (Hin : In r (chain_options resp)).
  { change (chain_strikes (base_strike_of 12) (Py.range (-10) 11))
      with [5; 10; 15; 20; 25; 30; 35; 40; 45; 50; 55; 60]%Z in HF.
    inversion HF as [ | k1 r1 ks1 rs1 Hrow1 HF1 E1 E2 ].
    inversion HF1 as [ | k2 r2 ks2 rs2 Hrow2 HF2 E3 E4 ].
    right. left. congruence. }
  exists resp, r. split; [ exact Hresp | split; [ exact Hin | ] ].
  pose proof (at_the_money_is_the_base_strike _ _ _ _ resp r Hresp Hin) as Hiff.
  pose proof (chain_row_fields _ _ _ _ Hr) as (Hs & _).
  split; [ | exact Hs ].
  apply Hiff. split; [ exact Hs | reflexivity ].
Defined.

Lemma round4_mono (x y : Q) : x <= y -> round4 x <= round4 y.
Proof.
  intros Hxy. unfold round4.
  assert (H : (Py.round_half_even (x * 10000) <= Py.round_half_even (y * 10000))%Z)
    by (apply round_half_even_mono; lra).
  rewrite Zle_Qle in H.
  apply Qmult_le_compat_r; [ exact H | ].
  apply Qlt_le_weak, Qinv_lt_0_compat. reflexivity.
Qed.

Lemma round2_nonneg (x : Q) : 0 <= x -> 0 <= Py.round2 x.
Proof.
  intros H. apply Qle_trans with (Py.round2 0); [ discriminate | ].
  now apply round2_mono.
Qed.

Lemma round2_nonpos (x : Q) : x <= 0 -> Py.round2 x <= 0.
Proof.
  intros H. apply Qle_trans with (Py.round2 0); [ | discriminate ].
  now apply round2_mono.
Qed.

Lemma bid_le_ask (prem : Q) :
  0 <= prem ->
  0 <= Py.round2 (prem * (19 # 20)) /\
  Py.round2 (prem * (19 # 20)) <= Py.round2 (prem * (21 # 20)).
Proof.
  intros H. split; [ apply round2_nonneg | apply round2_mono ]; lra.
Qed.

Lemma ask_le_bid (prem : Q) :
  prem <= 0 ->
  Py.round2 (prem * (21 # 20)) <= Py.round2 (prem * (19 # 20)) /\
  Py.round2 (prem * (19 # 20)) <= 0.
Proof.
  intros H. split; [ apply round2_mono | apply round2_nonpos ]; lra.
Qed.

Lemma int_nonneg (x : Q) : 0 <= x -> (0 <= Py.int x)%Z.
Proof.
  intros H. rewrite int_floor by exact H.
  apply Qfloor_lower. exact H.
Qed.

Lemma int_nonpos (x : Q) : x <= 0 -> (Py.int x <= 0)%Z.
Proof.
  intros H. rewrite int_ceiling by exact H.
  change 0%Z with (Qceiling 0). now apply Qceiling_resp_le.
Qed.

(** The time-value term of both premiums is not negative. *)
Lemma time_value_nonneg (s cp d : Q) :
  0 <= s -> 0 <= cp -> 0 <= d ->
  0 <= cp * ((1 # 4) + d * (1 # 10)) * s * (2 # 5).
Proof.
  intros Hs Hcp Hd.
  assert (Hb : 0 <= (1 # 4) + d * (1 # 10)) by lra.
  pose proof (Qmult_le_0_compat _ _ Hcp Hb) as H1.
  pose proof (Qmult_le_0_compat _ _ H1 Hs) as H2.
  lra.
Qed.

Lemma distance_facts (cp : Q) (k : Z) :
  0 < cp ->
  let d := Qabs (inject_Z k - cp) / cp in
  0 <= d /\
  (0 <= inject_Z k <= 2 * cp -> d <= 1) /\
  (2 * cp <= inject_Z k -> 1 <= d).
Proof.
  intros Hcp d. subst d. split; [ | split ].
  - apply Qle_shift_div_l; [ exact Hcp | ].
    pose proof (Qabs_nonneg (inject_Z k - cp)). lra.
  - intros Hk. apply Qle_shift_div_r; [ exact Hcp | ].
    apply Qabs_Qle_condition. lra.
  - intros Hk. apply Qle_shift_div_l; [ exact Hcp | ].
    rewrite Qabs_pos by lra. lra.
Qed.

(** X22. At a positive price (and a non-negative square-root factor) every
    row of the chain has a put quoted with [0 <= bid <= ask] and an implied
    volatility of at least 0.25; every row whose strike is at most twice the
    price also has a call quoted with [0 <= bid <= ask] and non-negative
    volumes. *)
Theorem chain_quotes_are_ordered
    (s : Q) (symbol : string) (expiration : option string) (quote : option Q)
    (resp : ChainResponse) (r : ChainRow) :
  get_option_chain s symbol expiration quote = Ok resp ->
  In r (chain_options resp) ->
  let cp := match quote with Some p => p | None => 150 end in
  0 < cp -> 0 <= s ->
  (0 <= putBid r /\ putBid r <= putAsk r) /\
  1 # 4 <= iv r /\
  (inject_Z (chain_strike r) <= 2 * cp ->
   (0 <= callBid r /\ callBid r <= callAsk r) /\
   (0 <= callVolume r)%Z /\ (0 <= putVolume r)%Z).
Proof.
  intros H Hr cp Hcp Hs. apply get_option_chain_inv in H. destruct H as [_ HF].
  fold cp in HF.
  destruct (Forall2_row_In _ _ _ _ r HF Hr) as (k & Hk & Hrow).
  apply chain_strikes_In in Hk. destruct Hk as [Hpos _].
  assert (Hkq : 0 < inject_Z k)
    by (change 0 with (inject_Z 0); now rewrite <- Zlt_Qlt).
  apply chain_row_fields in Hrow.
  destruct Hrow as (Hst & Hcb & Hca & Hcv & Hpb & Hpa & Hpv & Hiv & _).
  destruct (distance_facts cp k Hcp) as (Hd0 & Hd1 & _).
  set (d := Qabs (inject_Z k - cp) / cp) in *.
  pose proof (time_value_nonneg s cp d Hs (Qlt_le_weak _ _ Hcp) Hd0) as Htv.
  rewrite Hst, Hcb, Hca, Hcv, Hpb, Hpa, Hpv, Hiv.
  split; [ | split ].
  - apply bid_le_ask. unfold put_premium_of.
    destruct (Qle_bool cp (inject_Z k)) eqn:E.
    + eapply Qle_trans; [ | apply Q.le_max_l ]. discriminate.
    + assert (Hlt : inject_Z k < cp).
      { apply Qnot_le_lt. intros Hc. apply Qle_bool_iff in Hc. congruence. }
      assert (Hd : 0 <= 1 - d) by (assert (d <= 1) by (apply Hd1; lra); lra).
      apply (Qmult_le_0_compat _ _ Htv Hd).
  - apply Qle_trans with (round4 (1 # 4)); [ discriminate | ].
    apply round4_mono. lra.
  - intros H2.
    assert (Hd : 0 <= 1 - d) by (assert (d <= 1) by (apply Hd1; lra); lra).
    split; [ | split ].
    + apply bid_le_ask. unfold call_premium_of.
      destruct (Qle_bool (inject_Z k) cp).
      * eapply Qle_trans; [ | apply Q.le_max_l ]. discriminate.
      * apply (Qmult_le_0_compat _ _ Htv Hd).
    + apply int_nonneg. lra.
    + apply int_nonneg. lra.
Qed.

(** X23. Nothing keeps the far strikes sane: on a row whose strike is at
    least twice the (positive) price the call premium is not positive, so
    the call is quoted with [ask <= bid <= 0], and both volumes are zero or
    negative. *)
Theorem far_strikes_have_crossed_calls
    (s : Q) (symbol : string) (expiration : option string) (quote : option Q)
    (resp : ChainResponse) (r : ChainRow) :
  get_option_chain s symbol expiration quote = Ok resp ->
  In r (chain_options resp) ->
  let cp := match quote with Some p => p | None => 150 end in
  0 < cp -> 0 <= s ->
  2 * cp <= inject_Z (chain_strike r) ->
  callAsk r <= callBid r /\ callBid r <= 0 /\
  (callVolume r <= 0)%Z /\ (putVolume r <= 0)%Z.
Proof.
  intros H Hr cp Hcp Hs Hfar. apply get_option_chain_inv in H. destruct H as [_ HF].
  fold cp in HF.
  destruct (Forall2_row_In _ _ _ _ r HF Hr) as (k & _ & Hrow).
  apply chain_row_fields in Hrow.
  destruct Hrow as (Hst & Hcb & Hca & Hcv & _ & _ & Hpv & _ & _).
  rewrite Hst in Hfar.
  destruct (distance_facts cp k Hcp) as (Hd0 & _ & Hd2).
  set (d := Qabs (inject_Z k - cp) / cp) in *.
  pose proof (time_value_nonneg s cp d Hs (Qlt_le_weak _ _ Hcp) Hd0) as Htv.
  assert (Hd : 0 <= d - 1) by (assert (1 <= d) by (apply Hd2; lra); lra).
  rewrite Hcb, Hca, Hcv, Hpv.
  assert (Hprem : call_premium_of s cp k d ((1 # 4) + d * (1 # 10)) <= 0).
  { unfold call_premium_of.
    destruct (Qle_bool (inject_Z k) cp) eqn:E.
    - apply Qle_bool_iff in E. lra.
    - pose proof (Qmult_le_0_compat _ _ Htv Hd). lra. }
  destruct (ask_le_bid _ Hprem) as [H1 H2].
  split; [ exact H1 | split; [ exact H2 | ] ].
  split; apply int_nonpos; lra.
Qed.

Lemma Forall2_In_row (s cp : Q) (ks : list Z) (rows : list ChainRow)
    (k : Z) (r : ChainRow) :
  Forall2 (fun k r => chain_row s cp k = Ok r) ks rows ->
  In k ks -> chain_row s cp k = Ok r -> In r rows.
Proof.
  induction 1 as [ | k' r' ks rows Hr' _ IH]; simpl; [ contradiction | ].
  intros [-> | Hin] Hr.
  - left. congruence.
  - right. now apply IH.
Qed.

Lemma chain_at_12_has_row (k : Z) :
  In k [5; 10; 15; 20; 25; 30; 35; 40; 45; 50; 55; 60]%Z ->
  exists resp r,
    get_option_chain sqrt_time_to_expiry_approx "AAPL" None (Some 12) = Ok resp /\
    In r (chain_options resp) /\ chain_strike r = k.
Proof.
  intros Hk.
  assert (Hp : ~ 12 == 0) by discriminate.
  destruct (get_option_chain_Ok sqrt_time_to_expiry_approx "AAPL" None (Some 12) Hp)
    as [resp Hresp].
  pose proof (get_option_chain_inv _ _ _ _ _ Hresp) as [_ HF].
  destruct (chain_row_Ok sqrt_time_to_expiry_approx 12 k Hp) as [r Hr].
  exists resp, r. split; [ exact Hresp | ].
  split; [ exact (Forall2_In_row _ _ _ _ k r HF Hk Hr) | ].
  exact (chain_row_strike _ _ _ _ Hr).
Qed.

Lemma chain_quotes_are_ordered_witness :
  exists resp r,
    get_option_chain sqrt_time_to_expiry_approx "AAPL" None (Some 12) = Ok resp /\
    In r (chain_options resp) /\ chain_strike r = 10%Z /\
    (0 <= putBid r /\ putBid r <= putAsk r) /\
    (0 <= callBid r /\ callBid r <= callAsk r).
Proof.
  destruct (chain_at_12_has_row 10) as (resp & r & Hresp & Hin & Hk);
    [ simpl; tauto | ].
  exists resp, r. split; [ exact Hresp | split; [ exact Hin | split; [ exact Hk | ] ] ].
  destruct (chain_quotes_are_ordered _ _ _ _ resp r Hresp Hin)
    as (Hput & _ & Hcall); [ reflexivity | discriminate | ].
  split; [ exact Hput | ].
  apply Hcall. rewrite Hk. discriminate.
Defined.

Lemma far_strikes_have_crossed_calls_witness :
  exists resp r,
    get_option_chain sqrt_time_to_expiry_approx "AAPL" None (Some 12) = Ok resp /\
    In r (chain_options resp) /\ chain_strike r = 30%Z /\
    callAsk r <= callBid r /\ callBid r <= 0.
Proof.
  destruct (chain_at_12_has_row 30) as (resp & r & Hresp & Hin & Hk);
    [ simpl; tauto | ].
  exists resp, r. split; [ exact Hresp | split; [ exact Hin | split; [ exact Hk | ] ] ].
  destruct (far_strikes_have_crossed_calls _ _ _ _ resp r Hresp Hin)
    as (H1 & H2 & _); [ reflexivity | discriminate | rewrite Hk; discriminate | ].
  split; [ exact H1 | exact H2 ].
Defined.

(* ------------------------------------------------------------------ *)
(** ** The watchlist *)

Lemma find_one_None (u s : string) (coll : collection) :
  find_one u s coll = None <-> forall d, In d coll -> matches u s d = false.
Proof.
  unfold find_one. split.
  - intros H d Hd. exact (find_none _ _ H d Hd).
  - intros H. induction coll as [ | d coll IH]; simpl; [ reflexivity | ].
    rewrite (H d (or_introl eq_refl)). apply IH.
    intros d' Hd'. apply H. now right.
Qed.

Lemma matches_own (u s : string) :
  matches u s {| doc_user_id := u; doc_symbol := s |} = true.
Proof.
  unfold matches. simpl. now rewrite !String.eqb_refl.
Qed.

Lemma matches_eq (u s : string) (d : WatchDoc) :
  matches u s d = true <-> d = {| doc_user_id := u; doc_symbol := s |}.
Proof.
  unfold matches. rewrite andb_true_iff, !String.eqb_eq.
  destruct d as [du ds]. simpl. split.
  - intros [-> ->]. reflexivity.
  - intros H. injection H as -> ->. auto.
Qed.

Lemma delete_one_absent (u s : string) (coll : collection) :
  (forall d, In d coll -> matches u s d = false) ->
  delete_one u s coll = (coll, 0%Z).
Proof.
  induction coll as [ | d coll IH]; intros H; simpl; [ reflexivity | ].
  rewrite (H d (or_introl eq_refl)), IH; [ reflexivity | ].
  intros d' Hd'. apply H. now right.
Qed.

Lemma delete_one_appended (u s : string) (coll : collection) (d : WatchDoc) :
  (forall x, In x coll -> matches u s x = false) -> matches u s d = true ->
  delete_one u s (coll ++ [d]) = (coll, 1%Z).
Proof.
  intros H Hd. induction coll as [ | x coll IH]; simpl.
  - now rewrite Hd.
  - rewrite (H x (or_introl eq_refl)), IH; [ reflexivity | ].
    intros x' Hx'. apply H. now right.
Qed.

Lemma delete_one_count (u s : string) (coll : collection) :
  snd (delete_one u s coll) = 0%Z \/ snd (delete_one u s coll) = 1%Z.
Proof.
  induction coll as [ | d coll IH]; simpl; [ now left | ].
  destruct (matches u s d); [ now right | ].
  destruct (delete_one u s coll) as [rest n]. exact IH.
Qed.

Lemma delete_one_In (u s : string) (coll : collection) (x : WatchDoc) :
  In x (fst (delete_one u s coll)) -> In x coll.
Proof.
  induction coll as [ | d coll IH]; simpl; [ tauto | ].
  destruct (matches u s d); simpl; [ now right | ].
  destruct (delete_one u s coll) as [rest n]. simpl in *.
  intros [-> | H]; [ now left | right; now apply IH ].
Qed.

Lemma delete_one_NoDup (u s : string) (coll : collection) :
  NoDup coll -> NoDup (fst (delete_one u s coll)).
Proof.
  induction 1 as [ | d coll Hd Hnd IH]; simpl; [ constructor | ].
  destruct (matches u s d); simpl; [ exact Hnd | ].
  pose proof (delete_one_In u s coll d) as Hin.
  destruct (delete_one u s coll) as [rest n]. simpl in *.
  constructor; [ tauto | exact IH ].
Qed.

Lemma NoDup_snoc {A : Type} (l : list A) (a : A) :
  NoDup l -> ~ In a l -> NoDup (l ++ [a]).
Proof.
  induction 1 as [ | x l Hx Hnd IH]; simpl; intros Ha.
  - constructor; [ tauto | constructor ].
  - constructor.
    + rewrite in_app_iff. simpl. intros [H | [H | []]]; [ tauto | subst; tauto ].
    + apply IH. tauto.
Qed.

(** X24. Adding a symbol succeeds exactly when the user has no entry for
    its upper-cased form, and then appends that entry; otherwise it answers
    400 and leaves the collection as it was.  Adding the same symbol again
    right after a success is therefore refused. *)
Theorem add_to_watchlist_once (upper : string -> string)
    (symbol user_id : string) (coll : collection) :
  let doc := {| doc_user_id := user_id; doc_symbol := upper symbol |} in
  (~ In doc coll ->
   add_to_watchlist upper symbol user_id coll
     = (Respond "Added to watchlist"%string, coll ++ [doc]) /\
   add_to_watchlist upper symbol user_id (coll ++ [doc])
     = (HTTPException 400 "Symbol already in watchlist", coll ++ [doc])) /\
  (In doc coll ->
   add_to_watchlist upper symbol user_id coll
     = (HTTPException 400 "Symbol already in watchlist", coll)).
Proof.
  intros doc.
  assert (Hfound : forall c, In doc c ->
            add_to_watchlist upper symbol user_id c
              = (HTTPException 400 "Symbol already in watchlist", c)).
  { intros c Hin. unfold add_to_watchlist.
    destruct (find_one user_id (upper symbol) c) eqn:E; [ reflexivity | ].
    rewrite find_one_None in E. specialize (E doc Hin).
    unfold doc in E. rewrite matches_own in E. discriminate. }
  split; [ | apply Hfound ].
  intros Hnew. split.
  - unfold add_to_watchlist.
    destruct (find_one user_id (upper symbol) coll) as [d | ] eqn:E; [ | reflexivity ].
    exfalso. unfold find_one in E. apply find_some in E. destruct E as [Hin Hm].
    apply matches_eq in Hm. subst d. contradiction.
  - apply Hfound. apply in_app_iff. right. now left.
Qed.

(** X25. Removing a symbol answers 404 and changes nothing when the user
    has no entry for its upper-cased form; removing a symbol right after
    adding it succeeds and gives back the collection as it was before the
    addition. *)
Theorem remove_from_watchlist_undoes_add (upper : string -> string)
    (symbol user_id : string) (coll : collection) :
  ~ In {| doc_user_id := user_id; doc_symbol := upper symbol |} coll ->
  remove_from_watchlist upper symbol user_id coll
    = (HTTPException 404 "Symbol not in watchlist", coll) /\
  remove_from_watchlist upper symbol user_id
      (snd (add_to_watchlist upper symbol user_id coll))
    = (Respond "Removed from watchlist"%string, coll).
Proof.
  intros Hnew.
  assert (Hnone : forall d, In d coll -> matches user_id (upper symbol) d = false).
  { intros d Hd. destruct (matches user_id (upper symbol) d) eqn:E; [ | reflexivity ].
    apply matches_eq in E. subst d. contradiction. }
  split.
  - unfold remove_from_watchlist. now rewrite delete_one_absent.
  - unfold add_to_watchlist. rewrite (proj2 (find_one_None _ _ _) Hnone). simpl.
    unfold remove_from_watchlist, insert_one.
    rewrite delete_one_appended; [ reflexivity | exact Hnone | apply matches_own ].
Qed.

Lemma remove_from_watchlist_undoes_add_witness :
  remove_from_watchlist ascii_upper "aapl" "u1"
    [ {| doc_user_id := "u1"; doc_symbol := "MSFT" |} ]
    = (HTTPException 404 "Symbol not in watchlist",
       [ {| doc_user_id := "u1"; doc_symbol := "MSFT" |} ]) /\
  remove_from_watchlist ascii_upper "aapl" "u1"
    (snd (add_to_watchlist ascii_upper "aapl" "u1"
            [ {| doc_user_id := "u1"; doc_symbol := "MSFT" |} ]))
    = (Respond "Removed from watchlist"%string,
       [ {| doc_user_id := "u1"; doc_symbol := "MSFT" |} ]).
Proof.
  apply (remove_from_watchlist_undoes_add ascii_upper "aapl" "u1").
  simpl. intros [H | []]. discriminate H.
Defined.

Lemma step_NoDup (upper : string -> string) (coll : collection) (c : call) :
  NoDup coll -> NoDup (step upper coll c).
Proof.
  intros Hnd. destruct c as [symbol user_id | symbol user_id]; simpl.
  - unfold add_to_watchlist.
    destruct (find_one user_id (upper symbol) coll) eqn:E; simpl; [ exact Hnd | ].
    apply NoDup_snoc; [ exact Hnd | ].
    intros Hin. rewrite find_one_None in E. specialize (E _ Hin).
    rewrite matches_own in E. discriminate.
  - unfold remove_from_watchlist.
    pose proof (delete_one_NoDup user_id (upper symbol) coll Hnd) as H.
    destruct (delete_one user_id (upper symbol) coll) as [rest n]. simpl in H.
    destruct (n =? 0)%Z; exact H.
Qed.

(** X26. Whatever sequence of additions and removals is served, a
    collection without duplicate entries stays without duplicates; starting
    from the empty collection no user ever holds the same symbol twice. *)
Theorem watchlist_never_duplicates (upper : string -> string)
    (calls : list call) (coll : collection) :
  NoDup coll -> NoDup (run upper calls coll) /\ NoDup (run upper calls []).
Proof.
  assert (H : forall c, NoDup c -> NoDup (run upper calls c)).
  { unfold run. induction calls as [ | c calls IH]; intros c0 Hc0; simpl;
      [ exact Hc0 | ].
    apply IH. now apply step_NoDup. }
  intros Hnd. split; [ now apply H | apply H; constructor ].
Qed.

Lemma watchlist_never_duplicates_witness :
  NoDup (run ascii_upper
           [ Add "aapl" "u1"; Add "AAPL" "u1"; Remove "msft" "u1"; Add "aapl" "u2" ]
           [ {| doc_user_id := "u1"; doc_symbol := "MSFT" |} ]).
Proof.
  apply (watchlist_never_duplicates ascii_upper).
  repeat constructor. simpl. tauto.
Defined.

(** X27. In a collection without duplicates a successful removal really
    removes the entry: the user no longer holds the symbol afterwards, and
    every other entry is kept. *)
Theorem remove_from_watchlist_removes (upper : string -> string)
    (symbol user_id : string) (coll coll' : collection) :
  NoDup coll ->
  remove_from_watchlist upper symbol user_id coll
    = (Respond "Removed from watchlist"%string, coll') ->
  let doc := {| doc_user_id := user_id; doc_symbol := upper symbol |} in
  In doc coll /\ ~ In doc coll' /\
  find_one user_id (upper symbol) coll' = None /\
  (forall d, d <> doc -> (In d coll' <-> In d coll)).
Proof.
  intros Hnd H doc. unfold remove_from_watchlist in H.
  set (u := upper symbol) in *.
  assert (Hgen : forall c c' n, NoDup c ->
            delete_one user_id u c = (c', n) -> n <> 0%Z ->
            In doc c /\ ~ In doc c' /\ (forall d, d <> doc -> (In d c' <-> In d c))).
  { induction c as [ | x c IH]; intros c' n Hc Hdel Hn; simpl in Hdel.
    - injection Hdel as <- <-. contradiction.
    - inversion Hc as [ | x' c'' Hx Hc' ]; subst.
      destruct (matches user_id u x) eqn:Em.
      + injection Hdel as <- <-. apply matches_eq in Em. subst x.
        split; [ now left | ]. split; [ exact Hx | ].
        intros d Hd. simpl. split; [ tauto | ].
        intros [E | Hin]; [ | exact Hin ].
        exfalso. apply Hd. symmetry. exact E.
      + destruct (delete_one user_id u c) as [rest m] eqn:Ed.
        injection Hdel as <- <-.
        destruct (IH rest m Hc' eq_refl Hn) as (Hin & Hnot & Hrest).
        split; [ now right | ]. split.
        * simpl. intros [E | Hin']; [ | contradiction ].
          subst x. unfold doc in Em. rewrite matches_own in Em. discriminate Em.
        * intros d Hd. simpl. rewrite (Hrest d Hd). tauto. }
  destruct (delete_one user_id u coll) as [rest n] eqn:Ed.
  destruct (n =? 0)%Z eqn:En; [ discriminate | ].
  injection H as <-. apply Z.eqb_neq in En.
  destruct (Hgen coll rest n Hnd Ed En) as (Hin & Hnot & Hrest).
  split; [ exact Hin | ]. split; [ exact Hnot | ]. split; [ | exact Hrest ].
  apply find_one_None. intros d Hd.
  destruct (matches user_id u d) eqn:Em; [ | reflexivity ].
  apply matches_eq in Em. subst d. contradiction.
Qed.

Lemma remove_from_watchlist_removes_witness :
  In {| doc_user_id := "u1"; doc_symbol := "MSFT" |}
     [ {| doc_user_id := "u1"; doc_symbol := "MSFT" |};
       {| doc_user_id := "u2"; doc_symbol := "MSFT" |} ] /\
  find_one "u1" "MSFT" [ {| doc_user_id := "u2"; doc_symbol := "MSFT" |} ] = None.
Proof.
  assert (Hnd : NoDup [ {| doc_user_id := "u1"; doc_symbol := "MSFT" |};
                        {| doc_user_id := "u2"; doc_symbol := "MSFT" |} ]).
  { repeat constructor; simpl; [ | tauto ].
    intros [H | []]. discriminate H. }
  destruct (remove_from_watchlist_removes ascii_upper "msft" "u1" _
              [ {| doc_user_id := "u2"; doc_symbol := "MSFT" |} ] Hnd eq_refl)
    as (Hin & _ & Hnone & _).
  split; [ exact Hin | exact Hnone ].
Defined.

(* ------------------------------------------------------------------ *)
(** ** The strategies *)

Lemma update_one_status (f : StrategyDoc -> bool) (update : StrategyUpdate)
    (now : string) (coll : list StrategyDoc) :
  Forall (fun d => sd_status d = "active"%string) coll ->
  Forall (fun d => sd_status d = "active"%string)
    (fst (update_one f (apply_update update now) coll)).
Proof.
  induction 1 as [ | d coll Hd Hc IH]; simpl; [ constructor | ].
  destruct (f d); simpl; [ constructor; [ exact Hd | exact Hc ] | ].
  destruct (update_one f (apply_update update now) coll) as [rest n]. simpl in *.
  constructor; assumption.
Qed.

Lemma delete_strategy_one_status (f : StrategyDoc -> bool) (coll : list StrategyDoc) :
  Forall (fun d => sd_status d = "active"%string) coll ->
  Forall (fun d => sd_status d = "active"%string)
    (fst (delete_strategy_one f coll)).
Proof.
  induction 1 as [ | d coll Hd Hc IH]; simpl; [ constructor | ].
  destruct (f d); simpl; [ exact Hc | ].
  destruct (delete_strategy_one f coll) as [rest n]. simpl in *.
  constructor; assumption.
Qed.

Lemma strategy_step_status (ObjectId : string -> option string)
    (coll : list StrategyDoc) (c : strategy_call) :
  Forall (fun d => sd_status d = "active"%string) coll ->
  Forall (fun d => sd_status d = "active"%string) (strategy_step ObjectId coll c).
Proof.
  intros H. destruct c as [st u n1 n2 i | sid upd u now | sid u]; simpl.
  - apply Forall_app. split; [ exact H | repeat constructor ].
  - unfold update_strategy. destruct (ObjectId sid) as [oid | ]; [ | exact H ].
    pose proof (update_one_status (owned_by oid u) upd now coll H) as H'.
    destruct (update_one (owned_by oid u) (apply_update upd now) coll) as [rest n].
    destruct (n =? 0)%Z; exact H'.
  - unfold delete_strategy. destruct (ObjectId sid) as [oid | ]; [ | exact H ].
    pose proof (delete_strategy_one_status (owned_by oid u) coll H) as H'.
    destruct (delete_strategy_one (owned_by oid u) coll) as [rest n].
    destruct (n =? 0)%Z; exact H'.
Qed.

Lemma strategy_run_status (ObjectId : string -> option string)
    (calls : list strategy_call) (coll : list StrategyDoc) :
  Forall (fun d => sd_status d = "active"%string) coll ->
  Forall (fun d => sd_status d = "active"%string) (strategy_run ObjectId calls coll).
Proof.
  unfold strategy_run. revert coll.
  induction calls as [ | c calls IH]; intros coll H; simpl; [ exact H | ].
  apply IH. now apply strategy_step_status.
Qed.

(** X28. No endpoint ever writes the [status] key after creation: an update
    of [strategy_status] lands in a key of its own.  So after any sequence
    of creations, updates and deletions every stored strategy still has
    status [active]; listing with the filter [active] returns what listing
    without a filter returns, and listing with any other non-empty filter
    returns nothing. *)
Theorem strategy_status_stays_active
    (ObjectId : string -> option string)
    (sort_created_desc : list StrategyDoc -> list StrategyDoc)
    (calls : list strategy_call) (user_id : string) :
  (forall l, Permutation (sort_created_desc l) l) ->
  let coll := strategy_run ObjectId calls [] in
  Forall (fun d => sd_status d = "active"%string) coll /\
  get_strategies sort_created_desc user_id (Some "active"%string) coll
    = get_strategies sort_created_desc user_id None coll /\
  (forall f, f <> EmptyString -> f <> "active"%string ->
     get_strategies sort_created_desc user_id (Some f) coll = []).
Proof.
  intros Hsort coll.
  assert (Hact : Forall (fun d => sd_status d = "active"%string) coll)
    by (apply strategy_run_status; constructor).
  split; [ exact Hact | ]. rewrite Forall_forall in Hact. split.
  - unfold get_strategies. f_equal. apply filter_ext_in.
    intros d Hd. simpl. rewrite (Hact d Hd). reflexivity.
  - intros f Hne Hna. unfold get_strategies.
    assert (E : filter (fun d => ((sd_user_id d =? user_id)%string &&
                  (if (f =? EmptyString)%string then true
                   else (sd_status d =? f)%string))%bool) coll = []).
    { apply String.eqb_neq in Hne. rewrite Hne.
      induction coll as [ | d c IH]; simpl; [ reflexivity | ].
      rewrite (Hact d (or_introl eq_refl)).
      assert (Hf : ("active" =? f)%string = false)
        by (apply String.eqb_neq; congruence).
      rewrite Hf, andb_false_r. apply IH.
      intros x Hx. apply Hact. now right. }
    rewrite E. apply Permutation_nil. apply Permutation_sym, Hsort.
Qed.

Lemma strategy_status_stays_active_witness :
  forallb (fun d => (sd_status d =? "active")%string)
    (strategy_run ObjectId_by_length
       [ Create {| sc_name := "condor"; sc_ticker := "SPY"; sc_options := [];
                   sc_notes := None; sc_entry_price := None;
                   sc_target_profit := None; sc_stop_loss := None |}
                "u1" "t1" "t1" "0123456789abcdef01234567";
         Update "0123456789abcdef01234567"
                {| su_name := None; su_notes := None; su_target_profit := None;
                   su_stop_loss := None; su_strategy_status := Some "closed"%string |}
                "u1" "t2" ] []) = true /\
  get_strategies latest_first "u1" (Some "closed"%string)
    (strategy_run ObjectId_by_length
       [ Create {| sc_name := "condor"; sc_ticker := "SPY"; sc_options := [];
                   sc_notes := None; sc_entry_price := None;
                   sc_target_profit := None; sc_stop_loss := None |}
                "u1" "t1" "t1" "0123456789abcdef01234567";
         Update "0123456789abcdef01234567"
                {| su_name := None; su_notes := None; su_target_profit := None;
                   su_stop_loss := None; su_strategy_status := Some "closed"%string |}
                "u1" "t2" ] []) = [].
Proof.
  split; [ reflexivity | ].
  apply (strategy_status_stays_active ObjectId_by_length latest_first).
  - intros l. apply Permutation_sym, Permutation_rev.
  - discriminate.
  - discriminate.
Defined.

Lemma find_owned_None (oid u : string) (coll : list StrategyDoc) :
  (forall d, In d coll -> sd_id d = oid -> sd_user_id d <> u) ->
  forall d, In d coll -> owned_by oid u d = false.
Proof.
  intros H d Hd. unfold owned_by.
  destruct (sd_id d =? oid)%string eqn:E; [ | reflexivity ].
  apply String.eqb_eq in E. apply (H d Hd) in E.
  apply String.eqb_neq in E. now rewrite E.
Qed.

Lemma update_one_none (f : StrategyDoc -> bool) (set : StrategyDoc -> StrategyDoc)
    (coll : list StrategyDoc) :
  (forall d, In d coll -> f d = false) -> update_one f set coll = (coll, 0%Z).
Proof.
  induction coll as [ | d coll IH]; intros H; simpl; [ reflexivity | ].
  rewrite (H d (or_introl eq_refl)), IH; [ reflexivity | ].
  intros x Hx. apply H. now right.
Qed.

Lemma delete_strategy_one_none (f : StrategyDoc -> bool) (coll : list StrategyDoc) :
  (forall d, In d coll -> f d = false) -> delete_strategy_one f coll = (coll, 0%Z).
Proof.
  induction coll as [ | d coll IH]; intros H; simpl; [ reflexivity | ].
  rewrite (H d (or_introl eq_refl)), IH; [ reflexivity | ].
  intros x Hx. apply H. now right.
Qed.

Lemma find_none_all {A : Type} (f : A -> bool) (l : list A) :
  (forall a, In a l -> f a = false) -> find f l = None.
Proof.
  induction l as [ | a l IH]; intros H; simpl; [ reflexivity | ].
  rewrite (H a (or_introl eq_refl)). apply IH.
  intros x Hx. apply H. now right.
Qed.

(** X29. A strategy is out of reach of every user but its owner: when no
    stored strategy with the requested id belongs to the caller, reading,
    updating and deleting it all answer 404 and leave the collection
    untouched. *)
Theorem strategies_are_private
    (ObjectId : string -> option string)
    (strategy_id oid user_id now : string) (update : StrategyUpdate)
    (coll : list StrategyDoc) :
  ObjectId strategy_id = Some oid ->
  (forall d, In d coll -> sd_id d = oid -> sd_user_id d <> user_id) ->
  get_strategy ObjectId strategy_id user_id coll
    = RaisedHTTP 404 "Strategy not found" /\
  update_strategy ObjectId strategy_id update user_id now coll
    = (RaisedHTTP 404 "Strategy not found", coll) /\
  delete_strategy ObjectId strategy_id user_id coll
    = (RaisedHTTP 404 "Strategy not found", coll).
Proof.
  intros Hid Hothers.
  pose proof (find_owned_None oid user_id coll Hothers) as Hnone.
  unfold get_strategy, update_strategy, delete_strategy. rewrite Hid.
  rewrite (find_none_all _ _ Hnone), (update_one_none _ _ _ Hnone),
    (delete_strategy_one_none _ _ Hnone).
  repeat split.
Qed.

Lemma strategies_are_private_witness :
  let coll :=
    strategy_run ObjectId_by_length
      [ Create {| sc_name := "condor"; sc_ticker := "SPY"; sc_options := [];
                  sc_notes := None; sc_entry_price := None;
                  sc_target_profit := None; sc_stop_loss := None |}
               "u1" "t1" "t1" "0123456789abcdef01234567" ] [] in
  get_strategy ObjectId_by_length "0123456789abcdef01234567" "u2" coll
    = RaisedHTTP 404 "Strategy not found" /\
  delete_strategy ObjectId_by_length "0123456789abcdef01234567" "u2" coll
    = (RaisedHTTP 404 "Strategy not found", coll).
Proof.
  intros coll.
  destruct (strategies_are_private ObjectId_by_length
              "0123456789abcdef01234567" "0123456789abcdef01234567" "u2" "t3"
              {| su_name := None; su_notes := None; su_target_profit := None;
                 su_stop_loss := None; su_strategy_status := None |}
              coll eq_refl) as (Hg & _ & Hd).
  - intros d [<- | []] _. discriminate.
  - split; [ exact Hg | exact Hd ].
Defined.

Lemma owned_by_apply_update (oid u : string) (update : StrategyUpdate)
    (now : string) (d : StrategyDoc) :
  owned_by oid u (apply_update update now d) = owned_by oid u d.
Proof. reflexivity. Qed.

Lemma update_one_found (oid u : string) (update : StrategyUpdate) (now : string)
    (coll : list StrategyDoc) (d : StrategyDoc) :
  find (owned_by oid u) coll = Some d ->
  exists coll',
    update_one (owned_by oid u) (apply_update update now) coll = (coll', 1%Z) /\
    find (owned_by oid u) coll' = Some (apply_update update now d) /\
    length coll' = length coll.
Proof.
  induction coll as [ | x coll IH]; simpl; [ discriminate | ].
  destruct (owned_by oid u x) eqn:E.
  - intros H. injection H as ->. eexists. split; [ reflexivity | ].
    simpl. rewrite owned_by_apply_update, E. auto.
  - intros H. destruct (IH H) as (coll' & -> & Hf & Hl).
    eexists. split; [ reflexivity | ]. simpl. rewrite E. auto.
Qed.

(** X30. An owner's update is read back: when the caller owns a strategy
    with the requested id, the update succeeds, the collection keeps its
    size, and reading the strategy afterwards returns the stored document
    with the non-empty fields of the update written and [updated_at]
    refreshed; its id, owner, ticker, legs, entry price, creation time and
    [status] are never changed by an update. *)
Theorem update_strategy_is_read_back
    (ObjectId : string -> option string)
    (strategy_id oid user_id now : string) (update : StrategyUpdate)
    (coll : list StrategyDoc) (d : StrategyDoc) :
  ObjectId strategy_id = Some oid ->
  get_strategy ObjectId strategy_id user_id coll = Returned d ->
  exists coll' d',
    update_strategy ObjectId strategy_id update user_id now coll
      = (Returned "Strategy updated"%string, coll') /\
    get_strategy ObjectId strategy_id user_id coll' = Returned d' /\
    d' = apply_update update now d /\
    length coll' = length coll /\
    sd_updated_at d' = now /\
    (sd_id d', sd_user_id d', sd_ticker d', sd_options d',
     sd_entry_price d', sd_created_at d', sd_status d')
    = (sd_id d, sd_user_id d, sd_ticker d, sd_options d,
       sd_entry_price d, sd_created_at d, sd_status d).
Proof.
  intros Hid Hget. unfold get_strategy in Hget. rewrite Hid in Hget.
  destruct (find (owned_by oid user_id) coll) as [d0 | ] eqn:Hfind;
    [ | discriminate ].
  injection Hget as ->.
  destruct (update_one_found oid user_id update now coll d Hfind)
    as (coll' & Hupd & Hf & Hl).
  exists coll', (apply_update update now d).
  unfold update_strategy, get_strategy. rewrite Hid, Hupd, Hf. simpl.
  repeat split. exact Hl.
Qed.

Lemma update_strategy_is_read_back_witness :
  exists coll d coll' d',
    get_strategy ObjectId_by_length "0123456789abcdef01234567" "u1" coll
      = Returned d /\
    update_strategy ObjectId_by_length "0123456789abcdef01234567"
      {| su_name := Some "iron condor"%string; su_notes := None;
         su_target_profit := None; su_stop_loss := None;
         su_strategy_status := Some "closed"%string |} "u1" "t2" coll
      = (Returned "Strategy updated"%string, coll') /\
    get_strategy ObjectId_by_length "0123456789abcdef01234567" "u1" coll'
      = Returned d' /\
    sd_name d' = "iron condor"%string /\ sd_status d' = "active"%string.
Proof.
  set (coll := strategy_run ObjectId_by_length
      [ Create {| sc_name := "condor"; sc_ticker := "SPY"; sc_options := [];
                  sc_notes := None; sc_entry_price := None;
                  sc_target_profit := None; sc_stop_loss := None |}
               "u1" "t1" "t1" "0123456789abcdef01234567" ] []).
  assert (Hget : exists d,
            get_strategy ObjectId_by_length "0123456789abcdef01234567" "u1" coll
              = Returned d /\
            sd_name (apply_update
                       {| su_name := Some "iron condor"%string; su_notes := None;
                          su_target_profit := None; su_stop_loss := None;
                          su_strategy_status := Some "closed"%string |} "t2" d)
              = "iron condor"%string /\
            sd_status d = "active"%string).
  { eexists. split; [ reflexivity | split; reflexivity ]. }
  destruct Hget as (d & Hget & Hname & Hstatus).
  destruct (update_strategy_is_read_back ObjectId_by_length
              "0123456789abcdef01234567" "0123456789abcdef01234567" "u1" "t2"
              {| su_name := Some "iron condor"%string; su_notes := None;
                 su_target_profit := None; su_stop_loss := None;
                 su_strategy_status := Some "closed"%string |}
              coll d eq_refl Hget)
    as (coll' & d' & Hupd & Hget' & Hd' & _ & _ & Heq).
  exists coll, d, coll', d'.
  split; [ exact Hget | split; [ exact Hupd | split; [ exact Hget' | ] ] ].
  split.
  - rewrite Hd'. exact Hname.
  - injection Heq as _ _ _ _ _ _ Hs. rewrite Hs. exact Hstatus.
Defined.

(* ------------------------------------------------------------------ *)
(** ** Concrete runs of the remaining endpoints *)



Lemma add_to_watchlist_once_witness :
  add_to_watchlist ascii_upper "aapl" "u1" []
    = (Respond "Added to watchlist"%string,
       [ {| doc_user_id := "u1"; doc_symbol := "AAPL" |} ]) /\
  add_to_watchlist ascii_upper "aapl" "u1"
      [ {| doc_user_id := "u1"; doc_symbol := "AAPL" |} ]
    = (HTTPException 400 "Symbol already in watchlist",
       [ {| doc_user_id := "u1"; doc_symbol := "AAPL" |} ]).
Proof.
  apply (proj1 (add_to_watchlist_once ascii_upper "aapl" "u1" [])).
  intros [].
Defined.
